(** * InvoiceAI front end: a model of its view state and handlers

    The program is a React single-page application (the mounting shim
    main.jsx and the components of App.jsx).  Every component keeps its state in
    [useState] cells, and every handler is a short sequence of state
    setter calls and browser calls.  The embedding follows that shape:

    - a component's [useState] cells are the fields of a record;
    - a handler is a function from the state to the new state and the list
      of browser calls it made ([Effect]), written in a small handler
      monad so that each line of a handler is one line of the model;
    - what the environment decides (the files of a drop, the value that
      [Math.random] returns, the reading of [Date.now], the outcome of a
      [fetch]) is a parameter of the event;
    - rendering is a function from the state to a description of the
      elements that the component returns.

    JavaScript numbers that hold sizes, ids and clock readings are
    integers and are modelled in [Z].  The upload progress is a sum of
    products with [Math.random()], computed in binary64: its values are
    held as the rationals they denote, and [+] and [*] are the exact
    operation followed by the rounding of IEEE 754 ([Binary64]). *)

From Stdlib Require Import String Bool Arith ZArith QArith Qround Lqa Lia List.
From Stdlib Require Floats.
Import ListNotations.
Local Close Scope Q_scope.
Local Open Scope string_scope.
Local Open Scope list_scope.
Set Warnings "-register-all".

(** ** JavaScript values and built-ins used by the handlers *)

Module JS.

(** The values that can reach a handler as data: [undefined] and the
    JSON values ([res.json()] yields one of these; a form handler
    passes an object literal). *)
Inductive JsVal : Type :=
| JUndefined
| JNull
| JBool (b : bool)
| JNum (q : Q)
| JStr (s : string)
| JArr (items : list JsVal)
| JObj (props : list (string * JsVal)).

(** ToBoolean. *)
Definition truthy (v : JsVal) : bool :=
  match v with
  | JUndefined | JNull => false
  | JBool b => b
  | JNum q => negb (Qeq_bool q 0)
  | JStr s => negb (String.eqb s EmptyString)
  | JArr _ | JObj _ => true
  end.

(** [a || b]. *)
Definition or_else (a b : JsVal) : JsVal := if truthy a then a else b.

Fixpoint lookup_prop (key : string) (props : list (string * JsVal)) : JsVal :=
  match props with
  | [] => JUndefined
  | (k, v) :: rest => if String.eqb k key then v else lookup_prop key rest
  end.

(** [v.key] for a key that is neither an array index nor a name found
    on a prototype: a TypeError ([None]) on [undefined] and [null],
    the own property of an object, and [undefined] elsewhere. *)
Definition get_prop (v : JsVal) (key : string) : option JsVal :=
  match v with
  | JUndefined | JNull => None
  | JObj props => Some (lookup_prop key props)
  | JBool _ | JNum _ | JStr _ | JArr _ => Some JUndefined
  end.

(** Array.prototype.slice: a negative index counts from the end, and
    both indices are clamped to the array. *)
Definition relative_index (len k : Z) : Z :=
  if (k <? 0)%Z then Z.max (len + k) 0 else Z.min k len.

Definition slice {A : Type} (arr : list A) (start stop : Z) : list A :=
  let len := Z.of_nat (length arr) in
  let from := relative_index len start in
  let final := relative_index len stop in
  firstn (Z.to_nat (final - from)) (skipn (Z.to_nat from) arr).

(** [arr.filter((_, idx) => idx !== i)]. *)
Fixpoint filter_index {A : Type} (keep : nat -> bool) (from : nat) (arr : list A)
  : list A :=
  match arr with
  | [] => []
  | x :: rest =>
      if keep from then x :: filter_index keep (S from) rest
      else filter_index keep (S from) rest
  end.

(** A [Date] object: its time value in milliseconds, or [None] for an
    invalid date.  [new Date(tv)] clips the time value to the range
    of valid dates. *)
Definition Date := option Z.

Definition max_time_value : Z := 8640000000000000.

Definition new_Date (tv : Z) : Date :=
  if (Z.abs tv <=? max_time_value)%Z then Some tv else None.

End JS.

Import JS.

(** ** JavaScript numbers: binary64 arithmetic

    A finite binary64 value is an integer multiple of 2^-1074 with at
    most 53 significant bits.  The result of [x + y] and of [x * y] is
    the exact sum or product rounded to the nearest such value, a tie
    going to the one with an even significand.  Comparisons are exact.
    Infinity and NaN are left out: the sums and products of this
    program stay far below the overflow threshold. *)

Module Binary64.

(** The number of units of 2^-1074 in 1. *)
Definition scale : Z := 2 ^ 1074.

(** The nearest integer, a tie going to the even one. *)
Definition rne (q : Q) : Z :=
  let f := Qfloor q in
  match Qcompare (q - inject_Z f) (1 # 2) with
  | Lt => f
  | Gt => (f + 1)%Z
  | Eq => if Z.even f then f else (f + 1)%Z
  end.

(** For a magnitude of [X] units: the exponent of the spacing of the
    binary64 values around it.  With [2^l <= X < 2^(l+1)] the spacing
    is [2^(l - 52)] units, and one unit for the subnormal values. *)
Definition ulp_exp (X : Q) : Z := Z.max 0 (Z.log2 (Qfloor X) - 52).

Definition round_units (X : Q) : Z :=
  (rne (X / inject_Z (2 ^ ulp_exp X)) * 2 ^ ulp_exp X)%Z.

Definition of_units (n : Z) : Q := inject_Z n / inject_Z scale.

Definition round_nonneg (x : Q) : Q :=
  Qred (of_units (round_units (x * inject_Z scale))).

(** Rounding to nearest, ties to even; it is symmetric about 0. *)
Definition round (x : Q) : Q :=
  if Qle_bool 0 x then round_nonneg x else (- round_nonneg (- x))%Q.

Definition add (x y : Q) : Q := round (x + y).

Definition mul (x y : Q) : Q := round (x * y).

(** The rationals that are binary64 values. *)
Definition is_binary64 (x : Q) : bool := Qeq_bool (round x) x.

(** The largest binary64 values below 1 and below 100. *)
Definition below_1 : Q := of_units ((2 ^ 53 - 1) * 2 ^ 1021).

Definition below_100 : Q := of_units ((100 * 2 ^ 46 - 1) * 2 ^ 1028).

End Binary64.

(** The kernel's own binary64 numbers, to compare [Binary64] with. *)

Module Hardware.
Import Floats.

(** The rational a finite float denotes. *)
Definition value (f : float) : option Q :=
  match Prim2SF f with
  | S754_zero _ => Some 0%Q
  | S754_finite negative m e =>
      let magnitude :=
        if (0 <=? e)%Z then inject_Z (Z.pos m * 2 ^ e)
        else (inject_Z (Z.pos m) / inject_Z (2 ^ (- e)))%Q in
      Some (Qred (if negative then (- magnitude)%Q else magnitude))
  | S754_infinity _ | S754_nan => None
  end.

(** [Binary64.add] and [Binary64.mul] give, on the values of two
    floats, the value of the float that the hardware computes. *)
Definition agree (x y : float) : bool :=
  match value x, value y, value (x + y)%float, value (x * y)%float with
  | Some a, Some b, Some sum, Some product =>
      Qeq_bool (Binary64.add a b) sum && Qeq_bool (Binary64.mul a b) product
      && Binary64.is_binary64 a && Binary64.is_binary64 b
  | _, _, _, _ => false
  end.

(** Sample floats: fractions [k / 1000003], spread over the binades by
    powers of two, with both signs. *)
Definition sample (i : nat) : float :=
  let fraction := (of_uint63 (Uint63.of_Z (Z.of_nat i * 7919 + 1))
                   / of_uint63 (Uint63.of_Z 1000003))%float in
  let shifted := Z.ldexp fraction (Z.of_nat (i mod 23) * 5 - 60) in
  if Nat.even (i / 3) then shifted else (- shifted)%float.

Definition samples_agree (n : nat) : bool :=
  forallb (fun i => agree (sample i) (sample (i * 31 + 7))) (seq 0 n).

(** Pairs whose exact sum or product lies half way between two
    floats, among them subnormal ones. *)
Definition ties : list (float * float) :=
  [ (0x1p53, 1); (0x1.0000000000001p53, 1); (0x1.0000000000001p0, 0x1p-53);
    (0x1.0000000000003p0, 0x1p-53); (0x1.0000000000001p0, 0x1.8p0);
    (0x1p-1074, 0x1p-1); (0x1.8p-1073, 0x1p-1); (0x1.4p-1072, 0x1p-1);
    (0x1.fffffffffffffp-1023, 0x1p-1074); (0x1.0000000000001p-1022, 0x1p-1) ]%float.

Definition ties_agree : bool := forallb (fun p => agree (fst p) (snd p)) ties.

(** Draws of [Math.random()] that do not denote dyadic fractions with
    few bits: 0.1, the float below 2/3, the largest float below 1. *)
Definition tenth : float := 0x1.999999999999ap-4%float.
Definition two_thirds : float := 0x1.5555555555555p-1%float.
Definition almost_one : float := 0x1.fffffffffffffp-1%float.

End Hardware.


(** ** Browser calls made by handlers *)

Record RequestInit : Type := mkRequestInit {
  req_method : string;
  req_headers : list (string * string);
  (** the value handed to [JSON.stringify]; the body is its JSON text *)
  req_body : JsVal
}.

Inductive Effect : Type :=
| Fetch (url : string) (init : RequestInit)
| SetTimeout (ms : Z)
| SetInterval (id : nat) (ms : Z)
| ClearInterval (id : nat)
| ConsoleError (msg : string)
| ConsoleLog (msg : string)
| PreventDefault
| StopPropagation
| UncaughtTypeError.

(** The network requests a log of browser calls holds. *)
Definition requests (log : list Effect) : list (string * RequestInit) :=
  flat_map (fun e => match e with Fetch url init => [(url, init)] | _ => [] end) log.

(** ** The handler monad: state passing with a log of browser calls *)

Section Handler.
Context {S : Type}.

Definition Handler : Type := S -> S * list Effect.

Definition skip : Handler := fun s => (s, []).

Definition call (e : Effect) : Handler := fun s => (s, [e]).

Definition update (f : S -> S) : Handler := fun s => (f s, []).

Definition andThen (h k : Handler) : Handler :=
  fun s =>
    let (s1, log1) := h s in
    let (s2, log2) := k s1 in
    (s2, log1 ++ log2).

Definition reading {A : Type} (get : S -> A) (k : A -> Handler) : Handler :=
  fun s => k (get s) s.
End Handler.

Arguments Handler S : clear implicits.

Declare Scope handler_scope.
Delimit Scope handler_scope with handler.
Notation "h ;; k" := (andThen h k) (at level 61, right associativity) : handler_scope.
Local Open Scope handler_scope.

(** ** UploadPage *)

Module UploadPage.

Record File : Type := mkFile { name : string; size : Z }.

(** The four [useState] cells of the mounted instance of the page,
    and the interval timers of the browser: those that this instance has
    set and not cleared, the id that [setInterval] hands out next, and
    the timers that earlier instances of the page had set and not
    cleared when they were unmounted (the page has no cleanup, so
    nothing clears them then). *)
Record State : Type := mkState {
  files : list File;
  isDragging : bool;
  uploadProgress : Q;
  isUploading : bool;
  intervals : list nat;
  nextInterval : nat;
  orphans : list nat
}.

Definition init : State := mkState [] false 0 false [] 0 [].

(** The page is unmounted: its cells are gone, and an instance that is
    mounted later starts from the arguments of its [useState] calls.
    The timers stay set. *)
Definition unmounted (s : State) : State :=
  mkState [] false 0 false [] (nextInterval s) (intervals s ++ orphans s).

Definition setFiles (f : list File -> list File) : Handler State :=
  update (fun s => mkState (f (files s)) (isDragging s) (uploadProgress s)
                           (isUploading s) (intervals s) (nextInterval s)
                           (orphans s)).

Definition setIsDragging (b : bool) : Handler State :=
  update (fun s => mkState (files s) b (uploadProgress s)
                           (isUploading s) (intervals s) (nextInterval s)
                           (orphans s)).

Definition setUploadProgress (f : Q -> Q) : Handler State :=
  update (fun s => mkState (files s) (isDragging s) (f (uploadProgress s))
                           (isUploading s) (intervals s) (nextInterval s)
                           (orphans s)).

Definition setIsUploading (b : bool) : Handler State :=
  update (fun s => mkState (files s) (isDragging s) (uploadProgress s)
                           b (intervals s) (nextInterval s) (orphans s)).

(** [setInterval(callback, ms)]: the browser hands out a fresh id and
    keeps the timer until it is cleared. *)
Definition setInterval (ms : Z) : Handler State :=
  fun s =>
    let id := nextInterval s in
    (mkState (files s) (isDragging s) (uploadProgress s) (isUploading s)
             (id :: intervals s) (S id) (orphans s),
     [SetInterval id ms]).

Definition clearInterval (id : nat) : Handler State :=
  fun s =>
    (mkState (files s) (isDragging s) (uploadProgress s) (isUploading s)
             (List.filter (fun j => negb (Nat.eqb j id)) (intervals s))
             (nextInterval s) (orphans s),
     [ClearInterval id]).

Definition handleDrop (droppedFiles : list File) : Handler State :=
  call PreventDefault ;;
  setIsDragging false ;;
  setFiles (fun prev =>
    prev ++ slice droppedFiles 0 (100 - Z.of_nat (length prev))).

Definition handleFileSelect (selectedFiles : list File) : Handler State :=
  setFiles (fun prev =>
    prev ++ slice selectedFiles 0 (100 - Z.of_nat (length prev))).

Definition startUpload : Handler State :=
  reading files (fun fs =>
    if Nat.eqb (length fs) 0 then skip
    else
      setIsUploading true ;;
      setUploadProgress (fun _ => 0%Q) ;;
      setInterval 200).

(** The interval callback.  [interval] is the id bound by
    [startUpload]; [random] is what [Math.random()] returns.  The
    product and the sum are binary64 operations. *)
Definition tick (interval : nat) (random : Q) : Handler State :=
  reading uploadProgress (fun prev =>
    if Qle_bool 100 prev then
      clearInterval interval ;;
      setIsUploading false ;;
      setUploadProgress (fun _ => 100%Q)
    else
      setUploadProgress (fun _ => Binary64.add prev (Binary64.mul random 15))).

Inductive Event : Type :=
| Drop (droppedFiles : list File)
| DragOver
| DragEnter
| DragLeave
| FileSelect (selectedFiles : list File)
| ClearAll
| RemoveFile (i : nat)
| ClickProcess
| IntervalFires (id : nat) (random : Q).

Definition handle (ev : Event) : Handler State :=
  match ev with
  | Drop droppedFiles => handleDrop droppedFiles
  | DragOver => call PreventDefault
  | DragEnter => setIsDragging true
  | DragLeave => setIsDragging false
  | FileSelect selectedFiles => handleFileSelect selectedFiles
  | ClearAll => setFiles (fun _ => [])
  | RemoveFile i =>
      reading files (fun fs =>
        setFiles (fun _ => filter_index (fun idx => negb (Nat.eqb idx i)) 0 fs))
  | ClickProcess => startUpload
  | IntervalFires id random => tick id random
  end.

(** What the rendered page offers: the file list with its buttons
    only when [files.length > 0], the process button only when
    [!isUploading]; an interval fires only while it is not cleared, and
    [Math.random()] lies in [0, 1). *)
Definition enabled (s : State) (ev : Event) : bool :=
  match ev with
  | Drop _ | DragOver | DragEnter | DragLeave | FileSelect _ => true
  | ClearAll => negb (Nat.eqb (length (files s)) 0)
  | RemoveFile i => Nat.ltb i (length (files s))
  | ClickProcess => negb (Nat.eqb (length (files s)) 0) && negb (isUploading s)
  | IntervalFires id random =>
      existsb (Nat.eqb id) (intervals s)
      && Qle_bool 0 random && negb (Qle_bool 1 random)
  end.

Inductive step : State -> Event -> State -> Prop :=
| step_handle s ev : enabled s ev = true -> step s ev (fst (handle ev s)).

Inductive reachable : State -> Prop :=
| reach_init : reachable init
| reach_step s ev s' : reachable s -> step s ev s' -> reachable s'.

(** Running a list of events the page offers one after the other;
    [None] when one of them is not offered in the state it meets. *)
Fixpoint run (evs : list Event) (s : State) : option State :=
  match evs with
  | [] => Some s
  | ev :: rest => if enabled s ev then run rest (fst (handle ev s)) else None
  end.

(** The handlers applied in sequence, offered or not. *)
Definition apply_all (evs : list Event) (s : State) : State :=
  fold_left (fun st ev => fst (handle ev st)) evs s.

(** The page over its successive mounts: between the events it
    offers, the mounted instance may be unmounted, at any time, and a
    fresh one mounted in its place. *)
Inductive lifetime : State -> Prop :=
| life_init : lifetime init
| life_step s ev s' : lifetime s -> step s ev s' -> lifetime s'
| life_unmount s : lifetime s -> lifetime (unmounted s).

End UploadPage.

(** ** AuthProvider *)

Module AuthProvider.

Record User : Type := mkUser {
  id : Z;
  email : JsVal;
  name : string;
  plan : string;
  credits : Z;
  trialEnds : Date
}.

(** The two [useState] cells, and the timeouts [login] has set that
    have not fired yet, each with the [data] its callback closes over. *)
Record State : Type := mkState {
  user : option User;
  loading : bool;
  timeouts : list JsVal
}.

Definition init : State := mkState None false [].

Definition setUser (u : option User) : Handler State :=
  update (fun s => mkState u (loading s) (timeouts s)).

Definition setLoading (b : bool) : Handler State :=
  update (fun s => mkState (user s) b (timeouts s)).

Definition setTimeout (data : JsVal) (ms : Z) : Handler State :=
  fun s => (mkState (user s) (loading s) (timeouts s ++ [data]), [SetTimeout ms]).

(** The body of the arrow function handed to [setTimeout] by [login];
    [now] is the reading of [Date.now()].  Reading [data.email] throws
    when [data] is [null] or [undefined], which ends the callback. *)
Definition loginCallback (data : JsVal) (now : Z) : Handler State :=
  match get_prop data "email" with
  | None => call UncaughtTypeError
  | Some data_email =>
      setUser (Some {|
        id := 1;
        email := or_else data_email (JStr "user@example.com");
        name := "John Doe";
        plan := "trial";
        credits := 50;
        trialEnds := new_Date (now + 14 * 24 * 60 * 60 * 1000)
      |}) ;;
      setLoading false
  end.

Definition login (method : string) (data : JsVal) : Handler State :=
  setLoading true ;;
  setTimeout data 1000.

Definition logout : Handler State := setUser None.

Fixpoint remove_nth {A : Type} (n : nat) (l : list A) : list A :=
  match l, n with
  | [], _ => []
  | _ :: rest, O => rest
  | x :: rest, S m => x :: remove_nth m rest
  end.

(** The [n]-th pending timeout fires: the browser drops it and runs
    its callback. *)
Definition timeoutFires (n : nat) (now : Z) : Handler State :=
  fun s =>
    match nth_error (timeouts s) n with
    | None => skip s
    | Some data =>
        loginCallback data now
          (mkState (user s) (loading s) (remove_nth n (timeouts s)))
    end.

End AuthProvider.

(** ** Dashboard *)

Module Dashboard.

Record Invoice : Type := mkInvoice {
  id : Z;
  filename : string;
  status : string;
  uploadedAt : string;
  vendor : option string;
  total : option string
}.

(** The argument of the only [useState] of the component; the setter
    is not even bound. *)
Definition initial_invoices : list Invoice :=
  [ mkInvoice 1 "invoice-001.pdf" "completed" "2025-08-29T10:30:00Z"
              (Some "ABC Company") (Some "$1,250.00");
    mkInvoice 2 "receipt-002.jpg" "processing" "2025-08-29T11:15:00Z"
              (Some "XYZ Corp") None;
    mkInvoice 3 "bill-003.png" "failed" "2025-08-29T09:45:00Z"
              None None ].

Record State : Type := mkState { invoices : list Invoice }.

Definition init : State := mkState initial_invoices.

Definition getStatusColor (status : string) : string :=
  if String.eqb status "completed" then "text-green-600"
  else if String.eqb status "processing" then "text-yellow-600"
  else if String.eqb status "failed" then "text-red-600"
  else "text-gray-600".

(** One row of the list the component renders with [invoices.map]. *)
Record Row : Type := mkRow {
  row_key : Z;
  row_filename : string;
  row_vendor : string;
  row_total : option string;
  row_status : string;
  row_status_class : string;
  row_download : bool
}.

Definition render_row (invoice : Invoice) : Row :=
  mkRow (id invoice) (filename invoice)
        (match vendor invoice with
         | Some v => if String.eqb v EmptyString then "Processing vendor info..." else v
         | None => "Processing vendor info..."
         end)
        (match total invoice with
         | Some t => if String.eqb t EmptyString then None else Some t
         | None => None
         end)
        (status invoice)
        (getStatusColor (status invoice))
        (String.eqb (status invoice) "completed").

Definition render (s : State) : list Row := map render_row (invoices s).

End Dashboard.

(** ** The mounted tree: AuthProvider around InvoiceAI, which renders
    Navigation, one of the three pages, and AuthModal *)

Module App.

(** AuthModal's [useState] cells. *)
Record ModalState : Type := mkModal {
  mode : string;
  email : string;
  isSubmitting : bool
}.

(** How the [fetch] of the Google handler ends: the promise rejects,
    or it resolves to a response with its [ok] flag and, when the body
    parses as JSON, the value of [res.json()]. *)
Inductive FetchOutcome : Type :=
| FetchRejected
| FetchResponse (ok : bool) (json : option JsVal).

Record State : Type := mkState {
  (** AuthProvider *)
  auth : AuthProvider.State;
  (** InvoiceAI *)
  currentPage : string;
  showAuthModal : bool;
  (** AuthModal *)
  modal : ModalState;
  (** timeouts set by [handleMagicLink] that have not fired, each with
      the [email] its callback closes over *)
  magicLinks : list string;
  (** runs of the Google [onSuccess] handler waiting at [await fetch] *)
  pendingLogins : nat;
  (** the page components' own cells *)
  upload : UploadPage.State;
  dashboard : Dashboard.State
}.

Definition init : State :=
  mkState AuthProvider.init "landing" false (mkModal "login" EmptyString false)
          [] 0 UploadPage.init Dashboard.init.

(** *** Setters *)

Definition onAuth (h : Handler AuthProvider.State) : Handler State :=
  fun s =>
    let (a, log) := h (auth s) in
    (mkState a (currentPage s) (showAuthModal s) (modal s) (magicLinks s)
             (pendingLogins s) (upload s) (dashboard s), log).

Definition onUpload (h : Handler UploadPage.State) : Handler State :=
  fun s =>
    let (u, log) := h (upload s) in
    (mkState (auth s) (currentPage s) (showAuthModal s) (modal s) (magicLinks s)
             (pendingLogins s) u (dashboard s), log).

Definition setCurrentPage (page : string) : Handler State :=
  update (fun s => mkState (auth s) page (showAuthModal s) (modal s) (magicLinks s)
                           (pendingLogins s) (upload s) (dashboard s)).

Definition setShowAuthModal (b : bool) : Handler State :=
  update (fun s => mkState (auth s) (currentPage s) b (modal s) (magicLinks s)
                           (pendingLogins s) (upload s) (dashboard s)).

Definition onModal (f : ModalState -> ModalState) : Handler State :=
  update (fun s => mkState (auth s) (currentPage s) (showAuthModal s) (f (modal s))
                           (magicLinks s) (pendingLogins s) (upload s) (dashboard s)).

Definition setMode (m : string) : Handler State :=
  onModal (fun st => mkModal m (email st) (isSubmitting st)).

Definition setEmail (v : string) : Handler State :=
  onModal (fun st => mkModal (mode st) v (isSubmitting st)).

Definition setIsSubmitting (b : bool) : Handler State :=
  onModal (fun st => mkModal (mode st) (email st) b).

Definition setMagicLinks (f : list string -> list string) : Handler State :=
  update (fun s => mkState (auth s) (currentPage s) (showAuthModal s) (modal s)
                           (f (magicLinks s)) (pendingLogins s) (upload s) (dashboard s)).

Definition setPendingLogins (f : nat -> nat) : Handler State :=
  update (fun s => mkState (auth s) (currentPage s) (showAuthModal s) (modal s)
                           (magicLinks s) (f (pendingLogins s)) (upload s) (dashboard s)).

(** *** What [useAuth()] hands to the components *)

Definition login (method : string) (data : JsVal) : Handler State :=
  onAuth (AuthProvider.login method data).

Definition logout : Handler State := onAuth AuthProvider.logout.

(** *** AuthModal *)

(** The [onClose] prop that InvoiceAI passes. *)
Definition onClose : Handler State := setShowAuthModal false.

Definition magicLinkCallback (captured_email : string) : Handler State :=
  setIsSubmitting false ;;
  login "magic-link" (JObj [("email", JStr captured_email)]) ;;
  onClose.

Definition handleMagicLink : Handler State :=
  call PreventDefault ;;
  setIsSubmitting true ;;
  reading (fun s => email (modal s)) (fun captured_email =>
    setMagicLinks (fun pending => pending ++ [captured_email]) ;;
    call (SetTimeout 1500)).

Definition login_request (credential : string) : RequestInit :=
  {| req_method := "POST";
     req_headers := [("Content-Type", "application/json")];
     req_body := JObj [("provider", JStr "google"); ("token", JStr credential)] |}.

(** [onSuccess] up to its first [await]: the request is sent and the
    handler is suspended. *)
Definition googleOnSuccess (credential : string) : Handler State :=
  call (Fetch "/api/auth/login" (login_request credential)) ;;
  setPendingLogins S.

(** [onSuccess] from the [await] on: what follows in the [try] block,
    and the [catch]. *)
Definition googleOnSuccessResume (outcome : FetchOutcome) : Handler State :=
  setPendingLogins Nat.pred ;;
  match outcome with
  | FetchRejected => call (ConsoleError "Google login error:")
  | FetchResponse ok json =>
      if negb ok then call (ConsoleError "Google login error:")
      else
        match json with
        | None => call (ConsoleError "Google login error:")
        | Some data => login "google" data ;; onClose
        end
  end.

Definition googleOnError : Handler State := call (ConsoleLog "Google Login Failed").

Definition magicLinkTimeoutFires (n : nat) : Handler State :=
  fun s =>
    match nth_error (magicLinks s) n with
    | None => skip s
    | Some captured_email =>
        (setMagicLinks (AuthProvider.remove_nth n) ;;
         magicLinkCallback captured_email) s
    end.

(** *** InvoiceAI *)

Definition has_user (s : State) : bool :=
  match AuthProvider.user (auth s) with
  | Some _ => true
  | None => false
  end.

(** The body of the [useEffect] on [user] and [currentPage]. *)
Definition useEffect : Handler State :=
  fun s =>
    if has_user s && String.eqb (currentPage s) "landing"
    then setCurrentPage "dashboard" s
    else skip s.

Definition handleNavigation (page : string) : Handler State := setCurrentPage page.

Definition handleLogin : Handler State := setShowAuthModal true.

(** *** Events: every handler the tree attaches, and every callback it
    schedules *)

Inductive Event : Type :=
(** LandingPage: the two buttons wired to [onLogin] *)
| ClickSignIn
| ClickStartFreeTrial
(** AuthModal; [credential] is [credentialResponse.credential], the
    token string that Google issued *)
| ClickBackdrop
| ClickModalPanel
| ClickModalX
| GoogleSuccess (credential : string)
| GoogleFetchSettled (outcome : FetchOutcome)
| GoogleError
| ClickContinueWithEmail
| ChangeEmail (value : string)
| SubmitMagicLink
| ClickBackToLogin
| MagicLinkTimeout (n : nat)
(** AuthProvider *)
| LoginTimeout (n : nat) (now : Z)
(** InvoiceAI and its Navigation *)
| EffectRuns
| ClickNavDashboard
| ClickNavUpload
| ClickLogout
(** UploadPage *)
| Upload (ev : UploadPage.Event).

(** A click on a button inside the modal panel bubbles to the panel,
    whose own handler stops it before the backdrop. *)
Definition handle (ev : Event) : Handler State :=
  match ev with
  | ClickSignIn | ClickStartFreeTrial => handleLogin
  | ClickBackdrop => onClose
  | ClickModalPanel => call StopPropagation
  | ClickModalX => onClose ;; call StopPropagation
  | GoogleSuccess credential => googleOnSuccess credential
  | GoogleFetchSettled outcome => googleOnSuccessResume outcome
  | GoogleError => googleOnError
  | ClickContinueWithEmail => setMode "magic-link" ;; call StopPropagation
  | ChangeEmail value => setEmail value
  | SubmitMagicLink => handleMagicLink
  | ClickBackToLogin => setMode "login" ;; call StopPropagation
  | MagicLinkTimeout n => magicLinkTimeoutFires n
  | LoginTimeout n now => onAuth (AuthProvider.timeoutFires n now)
  | EffectRuns => useEffect
  | ClickNavDashboard => handleNavigation "dashboard"
  | ClickNavUpload => handleNavigation "upload"
  | ClickLogout => logout
  | Upload ev' => onUpload (UploadPage.handle ev')
  end.

(** *** Rendering *)

Inductive View : Type := LandingView | UploadView | DashboardView.

Definition View_eqb (a b : View) : bool :=
  match a, b with
  | LandingView, LandingView | UploadView, UploadView
  | DashboardView, DashboardView => true
  | _, _ => false
  end.

(** The children InvoiceAI hands to AnimatePresence: each
    [cond && <Page />] contributes its page when [cond] is truthy. *)
Definition render_pages (s : State) : list View :=
  (if String.eqb (currentPage s) "landing" && negb (has_user s)
   then [LandingView] else [])
  ++ (if String.eqb (currentPage s) "upload" && has_user s
      then [UploadView] else [])
  ++ (if String.eqb (currentPage s) "dashboard" && has_user s
      then [DashboardView] else []).

Definition shows (v : View) (s : State) : bool :=
  existsb (View_eqb v) (render_pages s).

Record Button : Type := mkButton {
  content : string;
  highlighted : bool;
  onClick : Event
}.

Record NavBar : Type := mkNavBar {
  dashboardButton : Button;
  uploadButton : Button;
  (** the number in front of the text credits remaining *)
  creditsRemaining : Z;
  logoutButton : Button
}.

Definition Navigation (s : State) : option NavBar :=
  match AuthProvider.user (auth s) with
  | None => None
  | Some u =>
      Some (mkNavBar
              (mkButton "Dashboard" (String.eqb (currentPage s) "dashboard")
                        ClickNavDashboard)
              (mkButton "Upload" (String.eqb (currentPage s) "upload")
                        ClickNavUpload)
              (AuthProvider.credits u)
              (mkButton "LogOut" false ClickLogout))
  end.

Inductive ModalBody : Type :=
| LoginOptions
| MagicLinkForm (value : string) (submitDisabled : bool).

Definition AuthModal (isOpen : bool) (st : ModalState) : option ModalBody :=
  if negb isOpen then None
  else if String.eqb (mode st) "login" then Some LoginOptions
  else Some (MagicLinkForm (email st) (isSubmitting st)).

Record Screen : Type := mkScreen {
  navigation : option NavBar;
  pages : list View;
  authModal : option ModalBody
}.

Definition render (s : State) : Screen :=
  mkScreen (Navigation s) (render_pages s) (AuthModal (showAuthModal s) (modal s)).

(** *** The step relation *)

(** The events the rendered screen and the pending callbacks offer.
    The form submits only with a non-empty address (the input is
    [required]) and an enabled button; [Date.now()] is a time value. *)
Definition enabled (s : State) (ev : Event) : bool :=
  match ev with
  | ClickSignIn | ClickStartFreeTrial => shows LandingView s
  | ClickBackdrop | ClickModalPanel | ClickModalX => showAuthModal s
  | GoogleSuccess _ | GoogleError | ClickContinueWithEmail =>
      match authModal (render s) with
      | Some LoginOptions => true
      | _ => false
      end
  | GoogleFetchSettled _ => Nat.ltb 0 (pendingLogins s)
  | ChangeEmail _ | ClickBackToLogin =>
      match authModal (render s) with
      | Some (MagicLinkForm _ _) => true
      | _ => false
      end
  | SubmitMagicLink =>
      match authModal (render s) with
      | Some (MagicLinkForm value submitDisabled) =>
          negb (String.eqb value EmptyString) && negb submitDisabled
      | _ => false
      end
  | MagicLinkTimeout n => Nat.ltb n (length (magicLinks s))
  | LoginTimeout n now =>
      Nat.ltb n (length (AuthProvider.timeouts (auth s)))
      && (Z.abs now <=? max_time_value)%Z
  | EffectRuns => true
  | ClickNavDashboard | ClickNavUpload | ClickLogout =>
      match navigation (render s) with
      | Some _ => true
      | None => false
      end
  | Upload ev' => shows UploadView s && UploadPage.enabled (upload s) ev'
  end.

(** A page that InvoiceAI no longer returns is unmounted and loses
    its cells; an instance mounted later starts from its initial cells.
    Unmounting runs no code of the page, so the interval timers of the
    upload page stay set.  AnimatePresence keeps a page that is leaving
    on screen until its exit animation has ended; the step relation
    leaves that span of time out and takes the page as unmounted by the
    render that no longer returns it.  [UploadPage.lifetime] makes no
    such choice: there the page is unmounted at any time. *)
Definition commit (s : State) : State :=
  mkState (auth s) (currentPage s) (showAuthModal s) (modal s) (magicLinks s)
          (pendingLogins s)
          (if shows UploadView s then upload s
           else UploadPage.unmounted (upload s))
          (if shows DashboardView s then dashboard s else Dashboard.init).

Inductive step : State -> Event -> State -> Prop :=
| step_handle s ev :
    enabled s ev = true -> step s ev (commit (fst (handle ev s))).

Inductive reachable : State -> Prop :=
| reach_init : reachable init
| reach_step s ev s' : reachable s -> step s ev s' -> reachable s'.

Fixpoint run (evs : list Event) (s : State) : option State :=
  match evs with
  | [] => Some s
  | ev :: rest =>
      if enabled s ev then run rest (commit (fst (handle ev s))) else None
  end.

End App.

(** ** Concrete states and event sequences used as examples *)

Module Examples.

Definition sample_file (n : Z) : UploadPage.File := UploadPage.mkFile "invoice.pdf" n.

(** A page that already holds 98 files. *)
Definition nearly_full : UploadPage.State :=
  UploadPage.mkState (repeat (sample_file 0) 98) false 0 false [] 0 [].

(** One file is selected, the process button is clicked, and the
    interval fires once for each of [draws], the values that
    [Math.random()] returns. *)
Definition upload_run (draws : list Q) : list UploadPage.Event :=
  UploadPage.FileSelect [sample_file 1]
  :: UploadPage.ClickProcess
  :: map (UploadPage.IntervalFires 0) draws.

(** What the magic-link form passes to [login], and a clock reading. *)
Definition ada : JsVal := JObj [("email", JStr "ada@example.com")].

Definition a_clock_reading : Z := 1762000000000.

(** Signing in with the magic-link form, up to the moment the user
    record is set. *)
Definition sign_in : list App.Event :=
  [ App.ClickSignIn;
    App.ClickContinueWithEmail;
    App.ChangeEmail "ada@example.com";
    App.SubmitMagicLink;
    App.MagicLinkTimeout 0;
    App.LoginTimeout 0 a_clock_reading ].

Definition after (evs : list App.Event) : App.State :=
  match App.run evs App.init with
  | Some s => s
  | None => App.init
  end.

Definition signed_in_on_landing : App.State := Eval vm_compute in after sign_in.

(** After signing in: to the dashboard, to the upload page, one file
    selected there, and back to the dashboard. *)
Definition back_and_forth : list App.Event :=
  sign_in ++ [ App.EffectRuns;
               App.ClickNavUpload;
               App.Upload (UploadPage.FileSelect [sample_file 7]);
               App.ClickNavDashboard ].

Definition back_on_dashboard : App.State := Eval vm_compute in after back_and_forth.

(** The modal is open and a Google sign-in waits for its response. *)
Definition google_pending : list App.Event :=
  [ App.ClickStartFreeTrial; App.GoogleSuccess "header.payload.signature" ].

Definition waiting_for_google : App.State := Eval vm_compute in after google_pending.

(** An upload at 50 percent. *)
Definition half_way : UploadPage.State :=
  UploadPage.mkState [sample_file 1] false 50 true [0] 1 [].

End Examples.

(** ** UploadPage: what it renders below the drop area *)

Module UploadPageView.
Import UploadPage.

(** [Math.round]: the nearest integer, a tie going up. *)
Definition Math_round (x : Q) : Z := Qfloor (x + (1 # 2)).

(** One entry of [files.map((file, i) => ...)]: the name shown and
    the event of its remove button. *)
Record FileRow : Type := mkFileRow {
  row_name : string;
  row_remove : Event
}.

Fixpoint file_rows (i : nat) (fs : list File) : list FileRow :=
  match fs with
  | [] => []
  | file :: rest => mkFileRow (name file) (RemoveFile i) :: file_rows (S i) rest
  end.

(** The number in front of the percent sign, and the width of the bar
    in percent. *)
Record ProgressBar : Type := mkProgressBar {
  percent : Z;
  width : Q
}.

(** The button Process n Invoice(s). *)
Record ProcessButton : Type := mkProcessButton {
  count : nat;
  plural : bool;
  process_onClick : Event
}.

Record FileList : Type := mkFileList {
  selected : nat;
  clearAll : Event;
  rows : list FileRow;
  progressBar : option ProgressBar;
  processButton : option ProcessButton
}.

(** [files.length > 0 && (...)], with [isUploading && (...)] and
    [!isUploading && (...)] inside. *)
Definition render (s : State) : option FileList :=
  if Nat.ltb 0 (length (files s)) then
    Some (mkFileList
            (length (files s))
            ClearAll
            (file_rows 0 (files s))
            (if isUploading s
             then Some (mkProgressBar (Math_round (uploadProgress s)) (uploadProgress s))
             else None)
            (if negb (isUploading s)
             then Some (mkProcessButton (length (files s))
                                        (negb (Nat.eqb (length (files s)) 1))
                                        ClickProcess)
             else None))
  else None.

End UploadPageView.

(** ** Further example states *)

Module MoreExamples.
Import Examples.

(** A list that is over the cap, which no run of the page produces. *)
Definition over_cap : UploadPage.State :=
  UploadPage.mkState (repeat (sample_file 0) 102) false 0 false [] 0 [].

Definition upload_after (draws : list Q) : UploadPage.State :=
  match UploadPage.run (upload_run draws) UploadPage.init with
  | Some s => s
  | None => UploadPage.init
  end.

(** The upload of [upload_run] after eight draws of 0.9375. *)
Definition overshot : UploadPage.State :=
  Eval vm_compute in upload_after (repeat (15 # 16)%Q 8).

(** The upload of [upload_run] after fourteen draws of 0.5. *)
Definition past_the_end : UploadPage.State :=
  Eval vm_compute in upload_after (repeat (1 # 2)%Q 14).

(** Signed in, on the dashboard, then logged out. *)
Definition sign_in_and_out : list App.Event :=
  sign_in ++ [ App.EffectRuns; App.ClickLogout ].

Definition logged_out : App.State := Eval vm_compute in after sign_in_and_out.

(** Signed in, on the upload page with one file selected. *)
Definition selecting : list App.Event :=
  sign_in ++ [ App.EffectRuns;
               App.ClickNavUpload;
               App.Upload (UploadPage.FileSelect [sample_file 7]) ].

Definition on_upload_page : App.State := Eval vm_compute in after selecting.

(** An upload is started, the page is left for the dashboard during
    the upload, and on the page again another upload is started. *)
Definition two_uploads : list App.Event :=
  selecting ++ [ App.Upload UploadPage.ClickProcess;
                 App.ClickNavDashboard;
                 App.ClickNavUpload;
                 App.Upload (UploadPage.FileSelect [sample_file 8]);
                 App.Upload UploadPage.ClickProcess ].

Definition uploading_again : App.State := Eval vm_compute in after two_uploads.

(** The magic-link form is open with an address typed in. *)
Definition form_filled : App.State :=
  Eval vm_compute in
    after [ App.ClickSignIn; App.ClickContinueWithEmail;
            App.ChangeEmail "ada@example.com" ].

(** The modal is open on its login options. *)
Definition modal_open : App.State := Eval vm_compute in after [ App.ClickSignIn ].

(** The form is submitted twice before the first login timeout fires;
    the first one then signs the user in, who goes to the dashboard. *)
Definition two_logins : list App.Event :=
  [ App.ClickSignIn; App.ClickContinueWithEmail;
    App.ChangeEmail "ada@example.com";
    App.SubmitMagicLink; App.MagicLinkTimeout 0;
    App.ClickSignIn;
    App.SubmitMagicLink; App.MagicLinkTimeout 0;
    App.LoginTimeout 0 a_clock_reading;
    App.EffectRuns ].

Definition second_login_pending : App.State := Eval vm_compute in after two_logins.

End MoreExamples.

(** * Properties *)

(** ** Binary64: rounding is monotone, and the values next to 1 and 100 *)

Section Binary64Facts.
Import Binary64.

Lemma rne_between (q : Q) : (Qfloor q <= rne q <= Qfloor q + 1)%Z.
Proof.
  unfold rne. destruct (Qcompare _ _); [destruct (Z.even _) | |]; lia.
Qed.

Lemma rne_Z (n : Z) : rne (inject_Z n) = n.
Proof.
  unfold rne. rewrite Qfloor_Z.
  destruct (Qcompare_spec (inject_Z n - inject_Z n) (1 # 2)) as [H | H | H];
    try reflexivity; exfalso; lra.
Qed.

Lemma rne_mono (p q : Q) : (p <= q)%Q -> (rne p <= rne q)%Z.
Proof.
  intros Hpq.
  pose proof (Qfloor_resp_le p q Hpq) as Hfloor.
  pose proof (rne_between p) as Hp. pose proof (rne_between q) as Hq.
  destruct (Z.eq_dec (Qfloor p) (Qfloor q)) as [Heq | Hneq]; [| lia].
  unfold rne in *. rewrite <- Heq in *.
  destruct (Qcompare_spec (p - inject_Z (Qfloor p)) (1 # 2)) as [Hp2 | Hp2 | Hp2];
    destruct (Qcompare_spec (q - inject_Z (Qfloor p)) (1 # 2)) as [Hq2 | Hq2 | Hq2];
    try destruct (Z.even (Qfloor p)); try lia; exfalso; lra.
Qed.

Lemma pow2_pos (c : Z) : (0 < inject_Z (2 ^ c))%Q \/ (c < 0)%Z.
Proof.
  destruct (Z.lt_ge_cases c 0) as [Hneg | Hpos]; [now right | left].
  change 0%Q with (inject_Z 0). rewrite <- Zlt_Qlt. now apply Z.pow_pos_nonneg.
Qed.

Lemma ulp_exp_nonneg (X : Q) : (0 <= ulp_exp X)%Z.
Proof. unfold ulp_exp. lia. Qed.

Lemma ulp_pos (X : Q) : (0 < inject_Z (2 ^ ulp_exp X))%Q.
Proof.
  destruct (pow2_pos (ulp_exp X)) as [H | H]; [exact H |].
  pose proof (ulp_exp_nonneg X). lia.
Qed.

Lemma round_units_nonneg (X : Q) : (0 <= X)%Q -> (0 <= round_units X)%Z.
Proof.
  intros HX. unfold round_units.
  apply Z.mul_nonneg_nonneg.
  - pose proof (rne_between (X / inject_Z (2 ^ ulp_exp X))) as [Hlo _].
    assert (0 <= Qfloor (X / inject_Z (2 ^ ulp_exp X)))%Z; [| lia].
    rewrite <- (Qfloor_Z 0). apply Qfloor_resp_le.
    apply Qle_shift_div_l; [apply ulp_pos |].
    change (inject_Z 0) with 0%Q. rewrite Qmult_0_l. exact HX.
  - apply Z.pow_nonneg. lia.
Qed.


(** The binade of a scaled value fixes the exponent of its ulp. *)
Lemma ulp_exp_binade (k : Z) (X : Q) :
  (52 <= k)%Z ->
  (inject_Z (2 ^ k) <= X)%Q -> (X < inject_Z (2 ^ (k + 1)))%Q ->
  ulp_exp X = (k - 52)%Z.
Proof.
  intros Hk Hlo Hhi. unfold ulp_exp.
  assert (Hlog : Z.log2 (Qfloor X) = k).
  { apply Z.log2_unique; [lia |]. split.
    - rewrite <- (Qfloor_Z (2 ^ k)). now apply Qfloor_resp_le.
    - rewrite Zlt_Qlt. apply Qle_lt_trans with X; [apply Qfloor_le |].
      now replace (Z.succ k) with (k + 1)%Z by lia. }
  rewrite Hlog. lia.
Qed.

Lemma round_units_binade (k : Z) (X : Q) :
  (52 <= k)%Z ->
  (inject_Z (2 ^ k) <= X)%Q -> (X < inject_Z (2 ^ (k + 1)))%Q ->
  round_units X = (rne (X / inject_Z (2 ^ (k - 52))) * 2 ^ (k - 52))%Z.
Proof.
  intros Hk Hlo Hhi. unfold round_units.
  now rewrite (ulp_exp_binade k X Hk Hlo Hhi).
Qed.

Lemma ulp_exp_mono (X Y : Q) : (0 <= X)%Q -> (X <= Y)%Q -> (ulp_exp X <= ulp_exp Y)%Z.
Proof.
  intros HX HXY. unfold ulp_exp.
  pose proof (Qfloor_resp_le X Y HXY) as Hfloor.
  assert (0 <= Qfloor X)%Z.
  { rewrite <- (Qfloor_Z 0). now apply Qfloor_resp_le. }
  pose proof (Z.log2_le_mono (Qfloor X) (Qfloor Y) Hfloor). lia.
Qed.

(** Below the top of its binade: a scaled value is less than 2^(c + 53). *)
Lemma below_binade_top (X : Q) :
  (0 <= X)%Q -> (X < inject_Z (2 ^ (ulp_exp X + 53)))%Q.
Proof.
  intros HX.
  assert (Hfloor : (0 <= Qfloor X)%Z).
  { rewrite <- (Qfloor_Z 0). now apply Qfloor_resp_le. }
  apply Qlt_le_trans with (inject_Z (Qfloor X + 1)); [apply Qlt_floor |].
  rewrite <- Zle_Qle.
  assert (Hlog : (Qfloor X + 1 <= 2 ^ (Z.log2 (Qfloor X) + 1))%Z).
  { destruct (Z.eq_dec (Qfloor X) 0) as [-> | Hnz]; [cbn; lia |].
    pose proof (Z.log2_spec (Qfloor X)) as Hspec.
    replace (Z.succ (Z.log2 (Qfloor X))) with (Z.log2 (Qfloor X) + 1)%Z in Hspec by lia.
    lia. }
  etransitivity; [exact Hlog |].
  apply Z.pow_le_mono_r; [lia |]. unfold ulp_exp. lia.
Qed.

Lemma round_units_mono (X Y : Q) :
  (0 <= X)%Q -> (X <= Y)%Q -> (round_units X <= round_units Y)%Z.
Proof.
  intros HX HXY.
  pose proof (ulp_exp_mono X Y HX HXY) as Hc.
  pose proof (ulp_exp_nonneg X) as HcX.
  destruct (Z.eq_dec (ulp_exp X) (ulp_exp Y)) as [Heq | Hneq].
  - unfold round_units. rewrite <- Heq.
    apply Z.mul_le_mono_nonneg_r; [apply Z.pow_nonneg; lia |].
    apply rne_mono.
    apply Qmult_le_compat_r; [exact HXY |].
    apply Qlt_le_weak, Qinv_lt_0_compat, ulp_pos.
  - (* Y lies in a higher binade *)
    assert (Hlt : (ulp_exp X < ulp_exp Y)%Z) by lia.
    apply Z.le_trans with (2 ^ (ulp_exp X + 53))%Z.
    + unfold round_units.
      replace (ulp_exp X + 53)%Z with (53 + ulp_exp X)%Z by lia.
      rewrite Z.pow_add_r by lia.
      apply Z.mul_le_mono_nonneg_r; [apply Z.pow_nonneg; lia |].
      rewrite <- (rne_Z (2 ^ 53)). apply rne_mono.
      apply Qle_shift_div_r; [apply ulp_pos |].
      rewrite <- inject_Z_mult, <- Z.pow_add_r by lia.
      replace (53 + ulp_exp X)%Z with (ulp_exp X + 53)%Z by lia.
      apply Qlt_le_weak, below_binade_top, HX.
    + apply Z.le_trans with (2 ^ (ulp_exp Y + 52))%Z.
      { apply Z.pow_le_mono_r; lia. }
      assert (HlogY : ulp_exp Y = (Z.log2 (Qfloor Y) - 52)%Z).
      { unfold ulp_exp in *. lia. }
      assert (HfloorY : (0 < Qfloor Y)%Z).
      { destruct (Z.lt_trichotomy (Qfloor Y) 0) as [Hn | [Hz | Hp]]; [| | exact Hp].
        - rewrite Z.log2_nonpos in HlogY by lia. lia.
        - rewrite Hz in HlogY. cbn in HlogY. lia. }
      pose proof (Z.log2_spec (Qfloor Y) HfloorY) as [Hspec _].
      unfold round_units.
      replace (ulp_exp Y + 52)%Z with (52 + ulp_exp Y)%Z by lia.
      rewrite Z.pow_add_r by lia.
      apply Z.mul_le_mono_nonneg_r; [apply Z.pow_nonneg; lia |].
      rewrite <- (rne_Z (2 ^ 52)). apply rne_mono.
      apply Qle_shift_div_l; [apply ulp_pos |].
      rewrite <- inject_Z_mult, <- Z.pow_add_r by lia.
      apply Qle_trans with (inject_Z (Qfloor Y)); [| apply Qfloor_le].
      rewrite <- Zle_Qle.
      replace (52 + ulp_exp Y)%Z with (Z.log2 (Qfloor Y)) by lia. exact Hspec.
Qed.


(** Between two neighbours of the grid of a binade there is no rounded
    value: a rounded value below [M * 2^(k-52)] is at most
    [(M - 1) * 2^(k-52)]. *)
Lemma round_units_gap (k M : Z) (X : Q) :
  (52 <= k)%Z -> (0 <= X)%Q ->
  (2 ^ 52 < M)%Z -> (M <= 2 ^ 53)%Z ->
  round_units (inject_Z (2 ^ k)) = (2 ^ k)%Z ->
  round_units (inject_Z (2 ^ (k + 1))) = (2 ^ (k + 1))%Z ->
  (round_units X < M * 2 ^ (k - 52))%Z ->
  (round_units X <= (M - 1) * 2 ^ (k - 52))%Z.
Proof.
  intros Hk HX HM1 HM2 Hlow Hhigh Hbelow.
  assert (Hpow : (0 < 2 ^ (k - 52))%Z) by (apply Z.pow_pos_nonneg; lia).
  assert (Hk52 : (2 ^ k = 2 ^ 52 * 2 ^ (k - 52))%Z).
  { rewrite <- Z.pow_add_r by lia. f_equal. lia. }
  assert (Hk53 : (2 ^ (k + 1) = 2 ^ 53 * 2 ^ (k - 52))%Z).
  { rewrite <- Z.pow_add_r by lia. f_equal. lia. }
  assert (Hnonneg : (0 <= inject_Z (2 ^ k))%Q).
  { change 0%Q with (inject_Z 0). rewrite <- Zle_Qle. apply Z.pow_nonneg. lia. }
  destruct (Qlt_le_dec X (inject_Z (2 ^ k))) as [Hsmall | Hge].
  - pose proof (round_units_mono X _ HX (Qlt_le_weak _ _ Hsmall)) as Hmono.
    rewrite Hlow, Hk52 in Hmono. nia.
  - destruct (Qlt_le_dec X (inject_Z (2 ^ (k + 1)))) as [Hin | Hbig].
    + rewrite (round_units_binade k X Hk Hge Hin) in *.
      apply Z.mul_le_mono_nonneg_r; [lia |].
      apply Z.mul_lt_mono_pos_r in Hbelow; lia.
    + assert (Hnonneg' : (0 <= inject_Z (2 ^ (k + 1)))%Q).
      { change 0%Q with (inject_Z 0). rewrite <- Zle_Qle. apply Z.pow_nonneg. lia. }
      pose proof (round_units_mono _ X Hnonneg' Hbig) as Hmono.
      rewrite Hhigh, Hk53 in Hmono. nia.
Qed.

Lemma scale_pos : (0 < inject_Z scale)%Q.
Proof. reflexivity. Qed.

Lemma of_units_le (n m : Z) : (n <= m)%Z <-> (of_units n <= of_units m)%Q.
Proof.
  unfold of_units, Qdiv. rewrite Zle_Qle.
  symmetry. apply Qmult_le_r. apply Qinv_lt_0_compat, scale_pos.
Qed.

Lemma of_units_lt (n m : Z) : (n < m)%Z <-> (of_units n < of_units m)%Q.
Proof.
  unfold of_units, Qdiv. rewrite Zlt_Qlt.
  symmetry. apply Qmult_lt_r. apply Qinv_lt_0_compat, scale_pos.
Qed.

Lemma round_nonneg_units (x : Q) :
  (round_nonneg x == of_units (round_units (x * inject_Z scale)))%Q.
Proof. apply Qred_correct. Qed.

Lemma scaled_nonneg (x : Q) : (0 <= x)%Q -> (0 <= x * inject_Z scale)%Q.
Proof.
  intros Hx. rewrite <- (Qmult_0_l (inject_Z scale)).
  apply Qmult_le_compat_r; [exact Hx |]. apply Qlt_le_weak, scale_pos.
Qed.

Lemma round_nonneg_nonneg (x : Q) : (0 <= x)%Q -> (0 <= round_nonneg x)%Q.
Proof.
  intros Hx. rewrite round_nonneg_units.
  apply Qle_trans with (of_units 0); [vm_compute; discriminate |].
  apply (proj1 (of_units_le _ _)). apply round_units_nonneg, scaled_nonneg, Hx.
Qed.

Lemma round_nonneg_mono (x y : Q) :
  (0 <= x)%Q -> (x <= y)%Q -> (round_nonneg x <= round_nonneg y)%Q.
Proof.
  intros Hx Hxy. rewrite !round_nonneg_units. apply (proj1 (of_units_le _ _)).
  apply round_units_mono; [now apply scaled_nonneg |].
  apply Qmult_le_compat_r; [exact Hxy |]. apply Qlt_le_weak, scale_pos.
Qed.

Lemma round_of_nonneg (x : Q) : (0 <= x)%Q -> round x = round_nonneg x.
Proof. intros Hx. unfold round. apply Qle_bool_iff in Hx. now rewrite Hx. Qed.

Lemma round_of_neg (x : Q) : (x < 0)%Q -> round x = (- round_nonneg (- x))%Q.
Proof.
  intros Hx. unfold round.
  destruct (Qle_bool 0 x) eqn:Hle; [| reflexivity].
  apply Qle_bool_iff in Hle. lra.
Qed.

(** Rounding is monotone. *)
Lemma round_mono (x y : Q) : (x <= y)%Q -> (round x <= round y)%Q.
Proof.
  intros Hxy.
  destruct (Qlt_le_dec x 0) as [Hx | Hx]; destruct (Qlt_le_dec y 0) as [Hy | Hy].
  - rewrite (round_of_neg x Hx), (round_of_neg y Hy).
    apply Qopp_le_compat. apply round_nonneg_mono; lra.
  - rewrite (round_of_neg x Hx), (round_of_nonneg y Hy).
    pose proof (round_nonneg_nonneg (- x)) as H1.
    pose proof (round_nonneg_nonneg y Hy) as H2.
    assert (0 <= - x)%Q by lra. specialize (H1 H). lra.
  - lra.
  - rewrite (round_of_nonneg x Hx), (round_of_nonneg y Hy).
    now apply round_nonneg_mono.
Qed.

Lemma round_nonneg_result (x : Q) : (0 <= x)%Q -> (0 <= round x)%Q.
Proof.
  intros Hx. rewrite (round_of_nonneg x Hx). now apply round_nonneg_nonneg.
Qed.

(** Rounding takes equal rationals to the same value. *)
Lemma rne_comp (p q : Q) : (p == q)%Q -> rne p = rne q.
Proof.
  intros Hpq. unfold rne.
  rewrite (Qfloor_comp p q Hpq).
  assert (Hcmp : Qcompare (p - inject_Z (Qfloor q)) (1 # 2)
                 = Qcompare (q - inject_Z (Qfloor q)) (1 # 2)).
  { apply Qcompare_comp; [now rewrite Hpq | reflexivity]. }
  now rewrite Hcmp.
Qed.

Lemma round_units_comp (X Y : Q) : (X == Y)%Q -> round_units X = round_units Y.
Proof.
  intros HXY. unfold round_units, ulp_exp.
  rewrite (Qfloor_comp X Y HXY). f_equal.
  apply rne_comp. now rewrite HXY.
Qed.

Lemma rne_multiple (q d : Z) : (0 < d)%Z -> rne (inject_Z (q * d) / inject_Z d) = q.
Proof.
  intros Hd. rewrite <- (rne_Z q) at 2. apply rne_comp.
  rewrite inject_Z_mult. field.
  intros Hzero. unfold Qeq in Hzero. cbn in Hzero. lia.
Qed.

(** A rounded value is a point of the grid, and rounds to itself. *)
Lemma round_units_fixed (X : Q) :
  (0 <= X)%Q -> round_units (inject_Z (round_units X)) = round_units X.
Proof.
  intros HX.
  pose proof (ulp_exp_nonneg X) as He.
  pose proof (round_units_nonneg X HX) as Hn.
  assert (Hm : (rne (X / inject_Z (2 ^ ulp_exp X)) <= 2 ^ 53)%Z).
  { rewrite <- (rne_Z (2 ^ 53)). apply rne_mono.
    apply Qle_shift_div_r; [apply ulp_pos |].
    rewrite <- inject_Z_mult, <- Z.pow_add_r by lia.
    replace (53 + ulp_exp X)%Z with (ulp_exp X + 53)%Z by lia.
    apply Qlt_le_weak, below_binade_top, HX. }
  assert (Hm0 : (0 <= rne (X / inject_Z (2 ^ ulp_exp X)))%Z).
  { unfold round_units in Hn.
    assert (0 < 2 ^ ulp_exp X)%Z by (apply Z.pow_pos_nonneg; lia). nia. }
  remember (rne (X / inject_Z (2 ^ ulp_exp X))) as m eqn:Hmdef.
  remember (ulp_exp X) as e eqn:Hedef.
  assert (Hnm : round_units X = (m * 2 ^ e)%Z).
  { unfold round_units. now rewrite <- Hedef, <- Hmdef. }
  rewrite Hnm.
  assert (Hpow : (0 < 2 ^ e)%Z) by (apply Z.pow_pos_nonneg; lia).
  unfold round_units at 1. unfold ulp_exp. rewrite Qfloor_Z.
  destruct (Z.eq_dec m (2 ^ 53)) as [Htop | Hbelow].
  - (* the rounding carried into the next binade *)
    subst m. rewrite Htop. rewrite <- Z.pow_add_r by lia.
    rewrite Z.log2_pow2 by lia.
    replace (Z.max 0 (53 + e - 52)) with (e + 1)%Z by lia.
    replace (2 ^ (53 + e))%Z with (2 ^ 52 * 2 ^ (e + 1))%Z
      by (rewrite <- Z.pow_add_r by lia; f_equal; lia).
    rewrite rne_multiple by (apply Z.pow_pos_nonneg; lia). reflexivity.
  - assert (Hlt : (m < 2 ^ 53)%Z) by lia.
    assert (He' : (Z.max 0 (Z.log2 (m * 2 ^ e) - 52) <= e)%Z).
    { destruct (Z.eq_dec m 0) as [-> | Hnz]; [cbn; lia |].
      assert (Hpos : (0 < m * 2 ^ e)%Z) by nia.
      assert (Z.log2 (m * 2 ^ e) < 53 + e)%Z; [| lia].
      apply Z.log2_lt_pow2; [exact Hpos |].
      rewrite Z.pow_add_r by lia. nia. }
    remember (Z.max 0 (Z.log2 (m * 2 ^ e) - 52)) as e' eqn:He'def.
    assert (He'0 : (0 <= e')%Z) by lia.
    replace (m * 2 ^ e)%Z with (m * 2 ^ (e - e') * 2 ^ e')%Z
      by (rewrite <- Z.mul_assoc, <- Z.pow_add_r by lia; do 2 f_equal; lia).
    rewrite rne_multiple by (apply Z.pow_pos_nonneg; lia). reflexivity.
Qed.

Lemma round_nonneg_comp (x y : Q) : (x == y)%Q -> round_nonneg x = round_nonneg y.
Proof.
  intros Hxy. unfold round_nonneg.
  now rewrite (round_units_comp (x * inject_Z scale) (y * inject_Z scale))
    by (now rewrite Hxy).
Qed.

Lemma round_nonneg_fixed (x : Q) :
  (0 <= x)%Q -> round_nonneg (round_nonneg x) = round_nonneg x.
Proof.
  intros Hx. unfold round_nonneg at 1. unfold round_nonneg at 2.
  rewrite (round_units_comp (round_nonneg x * inject_Z scale)
             (inject_Z (round_units (x * inject_Z scale)))).
  - now rewrite round_units_fixed by (now apply scaled_nonneg).
  - rewrite round_nonneg_units. unfold of_units. field.
    intros Hzero. pose proof scale_pos as Hpos. rewrite Hzero in Hpos.
    discriminate Hpos.
Qed.

(** What rounding yields is a binary64 value. *)
Lemma round_is_binary64 (x : Q) : is_binary64 (round x) = true.
Proof.
  unfold is_binary64. apply Qeq_bool_iff.
  destruct (Qlt_le_dec x 0) as [Hneg | Hpos].
  - rewrite (round_of_neg x Hneg).
    assert (Hx : (0 <= - x)%Q) by lra.
    pose proof (round_nonneg_nonneg (- x) Hx) as Hr.
    destruct (Qlt_le_dec (- round_nonneg (- x)) 0) as [Hlt | Hge].
    + rewrite (round_of_neg _ Hlt).
      rewrite (round_nonneg_comp (- - round_nonneg (- x)) (round_nonneg (- x)))
        by apply Qopp_involutive.
      now rewrite round_nonneg_fixed.
    + rewrite (round_of_nonneg _ Hge).
      assert (Hzero : (round_nonneg (- x) == 0)%Q) by lra.
      rewrite (round_nonneg_comp (- round_nonneg (- x)) (round_nonneg (- x)))
        by (rewrite Hzero; reflexivity).
      rewrite round_nonneg_fixed by exact Hx. rewrite Hzero. reflexivity.
  - rewrite (round_of_nonneg x Hpos).
    rewrite (round_of_nonneg _ (round_nonneg_nonneg x Hpos)).
    now rewrite round_nonneg_fixed.
Qed.

(** A binary64 value is its own rounding; so rounding a value that is
    at least a binary64 value gives at least that value. *)
Lemma is_binary64_round (x : Q) : is_binary64 x = true -> (round x == x)%Q.
Proof. apply Qeq_bool_eq. Qed.

Lemma round_above (x y : Q) :
  is_binary64 x = true -> (x <= y)%Q -> (x <= round y)%Q.
Proof.
  intros Hx Hxy. rewrite <- (is_binary64_round x Hx). now apply round_mono.
Qed.

Lemma round_below (x y : Q) :
  is_binary64 y = true -> (x <= y)%Q -> (round x <= y)%Q.
Proof.
  intros Hy Hxy. rewrite <- (is_binary64_round y Hy). now apply round_mono.
Qed.

Lemma rounded_below_1 (x : Q) :
  (0 <= x)%Q -> (round x < 1)%Q -> (round x <= below_1)%Q.
Proof.
  intros Hx Hlt. rewrite (round_of_nonneg x Hx) in *.
  rewrite round_nonneg_units in *. unfold below_1. apply (proj1 (of_units_le _ _)).
  apply (round_units_gap 1073 (2 ^ 53));
    [lia | now apply scaled_nonneg | reflexivity | reflexivity
     | vm_compute; reflexivity | vm_compute; reflexivity |].
  apply (proj2 (of_units_lt _ _)). eapply Qlt_le_trans; [exact Hlt |].
  unfold of_units. apply Qle_shift_div_l; [apply scale_pos |].
  rewrite Qmult_1_l. rewrite <- Zle_Qle. vm_compute. discriminate.
Qed.

Lemma rounded_below_100 (x : Q) :
  (0 <= x)%Q -> (round x < 100)%Q -> (round x <= below_100)%Q.
Proof.
  intros Hx Hlt. rewrite (round_of_nonneg x Hx) in *.
  rewrite round_nonneg_units in *. unfold below_100. apply (proj1 (of_units_le _ _)).
  apply (round_units_gap 1080 (100 * 2 ^ 46));
    [lia | now apply scaled_nonneg | reflexivity | vm_compute; discriminate
     | vm_compute; reflexivity | vm_compute; reflexivity |].
  apply (proj2 (of_units_lt _ _)). eapply Qlt_le_trans; [exact Hlt |].
  unfold of_units. apply Qle_shift_div_l; [apply scale_pos |].
  vm_compute. discriminate.
Qed.

(** The three products and sums of [tick] that show the rounding. *)
Lemma product_of_a_tenth :
  Hardware.value Hardware.tenth = Some (3602879701896397 # 36028797018963968)%Q
  /\ mul (3602879701896397 # 36028797018963968) 15 = (3 # 2)%Q.
Proof. split; vm_compute; reflexivity. Qed.

Lemma ninety_plus_ten :
  Hardware.value Hardware.two_thirds = Some (6004799503160661 # 9007199254740992)%Q
  /\ add 90 (mul (6004799503160661 # 9007199254740992) 15) = 100%Q.
Proof. split; vm_compute; reflexivity. Qed.

Lemma ninety_plus_largest :
  Hardware.value Hardware.almost_one = Some (Qred below_1)
  /\ add 90 (mul below_1 15) = 105%Q.
Proof. split; vm_compute; reflexivity. Qed.

(** On 32 pairs of floats with exponents from -60 to 50, sums and
    products agree with those of the hardware. *)
Lemma agrees_with_hardware : Hardware.samples_agree 32 = true.
Proof. vm_compute. reflexivity. Qed.

(** So do they where the exact result is half way between two floats:
    the sum of 2^53 and 1 is 2^53, that of 2^53 + 2 and 1 is 2^53 + 4. *)
Lemma ties_agree_with_hardware :
  Hardware.ties_agree = true
  /\ add (inject_Z (2 ^ 53)) 1 = inject_Z (2 ^ 53)
  /\ add (inject_Z (2 ^ 53 + 2)) 1 = inject_Z (2 ^ 53 + 4).
Proof. split; [| split]; vm_compute; reflexivity. Qed.

(** What [tick] adds: the product of a draw with 15. *)
Lemma increment_range (random : Q) :
  (0 <= random)%Q -> (random < 1)%Q ->
  (0 <= mul random 15)%Q /\ (mul random 15 <= 15)%Q.
Proof.
  intros Hlo Hhi. unfold mul. split.
  - apply round_nonneg_result. lra.
  - apply round_below; [vm_compute; reflexivity | lra].
Qed.

Lemma increment_below_15 (random : Q) :
  (0 <= random)%Q -> (random < 1)%Q -> is_binary64 random = true ->
  (mul random 15 < 15)%Q.
Proof.
  intros Hlo Hhi Hdouble.
  assert (Hgrid : (random <= below_1)%Q).
  { rewrite <- (is_binary64_round random Hdouble).
    apply rounded_below_1; [exact Hlo |].
    now rewrite (is_binary64_round random Hdouble). }
  apply Qle_lt_trans with (mul below_1 15).
  - unfold mul. apply round_mono. lra.
  - vm_compute. reflexivity.
Qed.

End Binary64Facts.


(** ** Array.prototype.slice *)

Section SliceFacts.
Context {A : Type}.

Lemma firstn_min_length (n : nat) (l : list A) :
  firstn (Nat.min n (length l)) l = firstn n l.
Proof.
  destruct (Nat.le_ge_cases n (length l)) as [Hle | Hge].
  - now rewrite Nat.min_l.
  - rewrite Nat.min_r by exact Hge.
    now rewrite !firstn_all2 by lia.
Qed.

(** [arr.slice(0, k)] with [k >= 0] is the first [k] elements. *)
Lemma slice_from_zero (arr : list A) (k : Z) :
  (0 <= k)%Z -> slice arr 0 k = firstn (Z.to_nat k) arr.
Proof.
  intros Hk. unfold slice, relative_index.
  destruct (Z.ltb_spec k 0) as [Hneg | _]; [lia |].
  change (0 <? 0)%Z with false. cbv iota.
  rewrite (Z.min_l 0) by lia.
  change (Z.to_nat 0) with 0. cbn [skipn].
  rewrite Z.sub_0_r, Z2Nat.inj_min, Nat2Z.id.
  apply firstn_min_length.
Qed.

Lemma filter_index_length (keep : nat -> bool) (from : nat) (arr : list A) :
  length (filter_index keep from arr) <= length arr.
Proof.
  revert from. induction arr as [| x rest IH]; intros from; cbn.
  - constructor.
  - destruct (keep from); cbn; specialize (IH (S from)); lia.
Qed.

End SliceFacts.

(** ** UploadPage: the file list *)

Section UploadFiles.
Import UploadPage.

Lemma handleDrop_files (s : State) (droppedFiles : list File) :
  length (files s) <= 100 ->
  files (fst (handleDrop droppedFiles s))
  = files s ++ firstn (100 - length (files s)) droppedFiles.
Proof.
  intros Hcap.
  change (files (fst (handleDrop droppedFiles s)))
    with (files s ++ slice droppedFiles 0 (100 - Z.of_nat (length (files s)))).
  rewrite slice_from_zero by lia.
  f_equal. f_equal. lia.
Qed.

Lemma handleFileSelect_files (s : State) (selectedFiles : list File) :
  length (files s) <= 100 ->
  files (fst (handleFileSelect selectedFiles s))
  = files s ++ firstn (100 - length (files s)) selectedFiles.
Proof.
  intros Hcap.
  change (files (fst (handleFileSelect selectedFiles s)))
    with (files s ++ slice selectedFiles 0 (100 - Z.of_nat (length (files s)))).
  rewrite slice_from_zero by lia.
  f_equal. f_equal. lia.
Qed.

Lemma capped_append_length (prev newFiles : list File) :
  length prev <= 100 ->
  length (prev ++ firstn (100 - length prev) newFiles)
  = Nat.min 100 (length prev + length newFiles).
Proof.
  intros Hcap. rewrite length_app, length_firstn. lia.
Qed.

(** Every handler of the page keeps the list within the cap. *)
Lemma handle_keeps_cap (ev : Event) (s : State) :
  length (files s) <= 100 -> length (files (fst (handle ev s))) <= 100.
Proof.
  intros Hcap.
  destruct ev as [dropped | | | | selected | | i | | id random]; cbn [handle].
  - rewrite (handleDrop_files s dropped Hcap), capped_append_length by exact Hcap. lia.
  - exact Hcap.
  - exact Hcap.
  - exact Hcap.
  - rewrite (handleFileSelect_files s selected Hcap), capped_append_length by exact Hcap.
    lia.
  - cbn. lia.
  - cbn. etransitivity; [apply filter_index_length | exact Hcap].
  - cbn. unfold startUpload, reading.
    destruct (Nat.eqb (length (files s)) 0); exact Hcap.
  - cbn. unfold tick, reading.
    destruct (Qle_bool 100 (uploadProgress s)); exact Hcap.
Qed.

Lemma apply_all_keeps_cap (evs : list Event) (s : State) :
  length (files s) <= 100 -> length (files (apply_all evs s)) <= 100.
Proof.
  unfold apply_all. revert s.
  induction evs as [| ev rest IH]; intros s Hcap; cbn [fold_left].
  - exact Hcap.
  - apply IH, handle_keeps_cap, Hcap.
Qed.

(** C1.  With at most 100 files in the list, [handleDrop] and
    [handleFileSelect] append the first [100 - files.length] of the new
    files and nothing else, so the list then holds
    [min(100, files.length + new.length)] files; and starting from the
    empty list of a fresh page, no sequence of drops and selections
    (or of any other events of the page) takes the list beyond 100. *)
Theorem files_capped_at_100 (s : State) (newFiles : list File) :
  length (files s) <= 100 ->
  files (fst (handleDrop newFiles s))
  = files s ++ firstn (100 - length (files s)) newFiles
  /\ files (fst (handleFileSelect newFiles s))
     = files s ++ firstn (100 - length (files s)) newFiles
  /\ length (files (fst (handleDrop newFiles s)))
     = Nat.min 100 (length (files s) + length newFiles)
  /\ length (files (fst (handleFileSelect newFiles s)))
     = Nat.min 100 (length (files s) + length newFiles)
  /\ (forall evs : list Event, length (files (apply_all evs init)) <= 100).
Proof.
  intros Hcap.
  rewrite (handleDrop_files s newFiles Hcap), (handleFileSelect_files s newFiles Hcap).
  repeat split; try apply (capped_append_length _ _ Hcap).
  intros evs. apply apply_all_keeps_cap. cbn. lia.
Qed.

End UploadFiles.

Section UploadFilesExamples.
Import UploadPage Examples.

Lemma files_capped_at_100_witness :
  length (files nearly_full) <= 100
  /\ files (fst (handleDrop [sample_file 1; sample_file 2; sample_file 3] nearly_full))
     = repeat (sample_file 0) 98 ++ [sample_file 1; sample_file 2]
  /\ length (files (fst (handleFileSelect
                           [sample_file 1; sample_file 2; sample_file 3] nearly_full)))
     = 100.
Proof.
  assert (Hcap : length (files nearly_full) <= 100).
  { cbn [files nearly_full]. rewrite repeat_length. lia. }
  split; [exact Hcap |].
  destruct (files_capped_at_100 nearly_full
              [sample_file 1; sample_file 2; sample_file 3] Hcap)
    as (Hdrop & _ & _ & Hlen & _).
  split; [exact Hdrop | exact Hlen].
Defined.

End UploadFilesExamples.

(** ** UploadPage: the simulated progress *)

Section UploadProgress.
Import UploadPage Examples MoreExamples.

Lemma run_reachable (evs : list Event) :
  forall s s' : State, reachable s -> run evs s = Some s' -> reachable s'.
Proof.
  induction evs as [| ev rest IH]; intros s s' Hs Hrun; cbn [run] in Hrun.
  - now injection Hrun as <-.
  - destruct (enabled s ev) eqn:Hen; [| discriminate].
    apply (IH _ _ (reach_step _ _ _ Hs (step_handle s ev Hen)) Hrun).
Qed.

Lemma startUpload_nonempty (s : State) :
  files s <> [] ->
  startUpload s
  = (mkState (files s) (isDragging s) 0 true
             (nextInterval s :: intervals s) (S (nextInterval s)) (orphans s),
     [SetInterval (nextInterval s) 200]).
Proof.
  intros Hne. unfold startUpload, reading.
  destruct (Nat.eqb_spec (length (files s)) 0) as [Hzero | _].
  - now apply length_zero_iff_nil in Hzero.
  - reflexivity.
Qed.

Lemma tick_below_100 (s : State) (id : nat) (random : Q) :
  (uploadProgress s < 100)%Q ->
  tick id random s
  = (mkState (files s) (isDragging s)
             (Binary64.add (uploadProgress s) (Binary64.mul random 15))
             (isUploading s) (intervals s) (nextInterval s) (orphans s), []).
Proof.
  intros Hlt. unfold tick, reading.
  destruct (Qle_bool 100 (uploadProgress s)) eqn:Hge.
  - apply Qle_bool_iff in Hge. lra.
  - reflexivity.
Qed.

Lemma tick_from_100 (s : State) (id : nat) (random : Q) :
  (100 <= uploadProgress s)%Q ->
  tick id random s
  = (mkState (files s) (isDragging s) 100 false
             (filter (fun j => negb (Nat.eqb j id)) (intervals s)) (nextInterval s)
             (orphans s),
     [ClearInterval id]).
Proof.
  intros Hge. unfold tick, reading.
  apply Qle_bool_iff in Hge. rewrite Hge. reflexivity.
Qed.

Lemma cleared_interval_gone (id : nat) (ids : list nat) :
  ~ In id (filter (fun j => negb (Nat.eqb j id)) ids).
Proof.
  intros Hin. apply filter_In in Hin as [_ Hneq].
  now rewrite Nat.eqb_refl in Hneq.
Qed.

(** C3, as amended.  [startUpload] on a non-empty file list sets the
    progress to 0 and the uploading flag, and starts the interval.  A
    tick at a progress [p < 100] yields the binary64 sum of [p] and
    [r], where [r] is the binary64 product [Math.random() * 15], which
    lies in [0, 15), and changes nothing else; a tick at [p >= 100]
    yields exactly 100, clears the interval and the uploading flag.  So
    the progress does not decrease over a tick that starts at or below
    100, and a tick that starts above 100 takes it down to 100.  The
    draw and the progress are doubles. *)
Theorem progress_random_step (s : State) (id : nat) (random : Q) :
  (0 <= random)%Q -> (random < 1)%Q ->
  Binary64.is_binary64 random = true ->
  Binary64.is_binary64 (uploadProgress s) = true ->
  (files s <> [] ->
     uploadProgress (fst (startUpload s)) = 0%Q
     /\ isUploading (fst (startUpload s)) = true
     /\ intervals (fst (startUpload s)) = nextInterval s :: intervals s
     /\ snd (startUpload s) = [SetInterval (nextInterval s) 200])
  /\ ((uploadProgress s < 100)%Q ->
        uploadProgress (fst (tick id random s))
        = Binary64.add (uploadProgress s) (Binary64.mul random 15)
        /\ (0 <= Binary64.mul random 15)%Q /\ (Binary64.mul random 15 < 15)%Q
        /\ isUploading (fst (tick id random s)) = isUploading s
        /\ intervals (fst (tick id random s)) = intervals s)
  /\ ((100 <= uploadProgress s)%Q ->
        uploadProgress (fst (tick id random s)) = 100%Q
        /\ isUploading (fst (tick id random s)) = false
        /\ ~ In id (intervals (fst (tick id random s)))
        /\ snd (tick id random s) = [ClearInterval id])
  /\ ((uploadProgress s <= 100)%Q ->
        (uploadProgress s <= uploadProgress (fst (tick id random s)))%Q)
  /\ ((100 < uploadProgress s)%Q ->
        (uploadProgress (fst (tick id random s)) < uploadProgress s)%Q).
Proof.
  intros Hlo Hhi Hdraw Hdouble.
  pose proof (increment_range random Hlo Hhi) as [Hinc _].
  pose proof (increment_below_15 random Hlo Hhi Hdraw) as Hinc15.
  repeat apply conj.
  - intros Hne. rewrite (startUpload_nonempty s Hne). now cbn.
  - intros Hlt. rewrite (tick_below_100 s id random Hlt).
    cbn [fst uploadProgress isUploading intervals].
    repeat split; assumption.
  - intros Hge. rewrite (tick_from_100 s id random Hge). cbn.
    repeat split. apply cleared_interval_gone.
  - intros Hle. destruct (Qlt_le_dec (uploadProgress s) 100) as [Hlt | Hge].
    + rewrite (tick_below_100 s id random Hlt). cbn [fst uploadProgress].
      apply round_above; [exact Hdouble | lra].
    + rewrite (tick_from_100 s id random Hge). cbn. exact Hle.
  - intros Hgt. rewrite (tick_from_100 s id random) by lra. cbn. exact Hgt.
Qed.

Lemma progress_random_step_witness :
  (0 <= 1 # 2)%Q /\ (1 # 2 < 1)%Q
  /\ Binary64.is_binary64 (1 # 2) = true
  /\ Binary64.is_binary64 (uploadProgress half_way) = true
  /\ uploadProgress (fst (tick 0 (1 # 2) half_way)) = (115 # 2)%Q
  /\ (uploadProgress half_way <= uploadProgress (fst (tick 0 (1 # 2) half_way)))%Q.
Proof.
  assert (Hlo : (0 <= 1 # 2)%Q) by lra.
  assert (Hhi : (1 # 2 < 1)%Q) by lra.
  assert (Hdraw : Binary64.is_binary64 (1 # 2) = true) by (vm_compute; reflexivity).
  assert (Hdouble : Binary64.is_binary64 (uploadProgress half_way) = true)
    by (vm_compute; reflexivity).
  destruct (progress_random_step half_way 0 (1 # 2) Hlo Hhi Hdraw Hdouble)
    as (_ & Hbelow & _ & Hmono & _).
  assert (Hat : (uploadProgress half_way < 100)%Q) by (cbn; lra).
  split; [exact Hlo |]. split; [exact Hhi |].
  split; [exact Hdraw |]. split; [exact Hdouble |]. split.
  - rewrite (proj1 (Hbelow Hat)). vm_compute. reflexivity.
  - apply Hmono. cbn. lra.
Defined.

(** The last clause of C3 as the specification words it fails: after
    fourteen ticks with [Math.random()] at 0.5 the progress of a running
    upload is 105, and the next tick takes it down to 100. *)
Lemma progress_decreases_after_overshoot :
  exists s : State,
    run (upload_run (repeat (1 # 2)%Q 14)) init = Some s
    /\ reachable s
    /\ enabled s (IntervalFires 0 (1 # 2)) = true
    /\ (uploadProgress s == 105)%Q
    /\ uploadProgress (fst (handle (IntervalFires 0 (1 # 2)) s)) = 100%Q
    /\ ~ (uploadProgress s
          <= uploadProgress (fst (handle (IntervalFires 0 (1 # 2)) s)))%Q.
Proof.
  assert (Hrun : run (upload_run (repeat (1 # 2)%Q 14)) init = Some past_the_end)
    by (vm_compute; reflexivity).
  exists past_the_end. split; [exact Hrun |].
  split; [exact (run_reachable _ _ _ reach_init Hrun) |].
  split; [vm_compute; reflexivity |].
  split; [vm_compute; reflexivity |].
  split; [vm_compute; reflexivity |].
  apply Qlt_not_le. vm_compute. reflexivity.
Qed.

(** C8.  A tick below 100 adds the whole increment (the sum is the
    binary64 sum, with no bound put on it) and leaves the
    uploading flag and the interval as they are, whatever the sum; so
    for some draws (eight times 0.9375) the progress after a tick is
    112.5, above 100, with the upload still running, and it is the next tick,
    whatever its draw, that sets the progress to exactly 100, clears the
    flag and stops the interval. *)
Theorem progress_overshoots_100 :
  (forall (s : State) (id : nat) (random : Q),
      (uploadProgress s < 100)%Q ->
      uploadProgress (fst (tick id random s))
      = Binary64.add (uploadProgress s) (Binary64.mul random 15)
      /\ isUploading (fst (tick id random s)) = isUploading s
      /\ intervals (fst (tick id random s)) = intervals s)
  /\ exists (draws : list Q) (s : State),
      Forall (fun u => (0 <= u)%Q /\ (u < 1)%Q) draws
      /\ run (upload_run draws) init = Some s
      /\ (100 < uploadProgress s)%Q
      /\ isUploading s = true
      /\ In 0 (intervals s)
      /\ forall u : Q, (0 <= u)%Q -> (u < 1)%Q ->
           enabled s (IntervalFires 0 u) = true
           /\ uploadProgress (fst (handle (IntervalFires 0 u) s)) = 100%Q
           /\ isUploading (fst (handle (IntervalFires 0 u) s)) = false
           /\ intervals (fst (handle (IntervalFires 0 u) s)) = [].
Proof.
  split.
  - intros s id random Hlt. rewrite (tick_below_100 s id random Hlt). now cbn.
  - exists (repeat (15 # 16)%Q 8), overshot. split.
    { repeat constructor; lra. }
    split; [vm_compute; reflexivity |].
    split; [vm_compute; reflexivity |].
    split; [reflexivity |].
    split; [now left |].
    intros u Hlo Hhi. unfold overshot. split.
    + cbn [enabled intervals existsb Nat.eqb orb andb].
      apply Qle_bool_iff in Hlo. rewrite Hlo.
      destruct (Qle_bool 1 u) eqn:Hone; [| reflexivity].
      apply Qle_bool_iff in Hone. lra.
    + cbn [handle]. rewrite tick_from_100.
      * now cbn.
      * apply Qlt_le_weak. vm_compute. reflexivity.
Qed.

End UploadProgress.

(** ** AuthProvider: the simulated login *)

Section Login.
Import AuthProvider Examples.

Lemma nth_error_last {A : Type} (l : list A) (x : A) :
  nth_error (l ++ [x]) (length l) = Some x.
Proof.
  rewrite nth_error_app2 by apply Nat.le_refl.
  now rewrite Nat.sub_diag.
Qed.

Lemma remove_nth_last {A : Type} (l : list A) (x : A) :
  remove_nth (length l) (l ++ [x]) = l.
Proof.
  induction l as [| y rest IH]; cbn.
  - reflexivity.
  - now rewrite IH.
Qed.

Lemma get_prop_defined (data : JsVal) (key : string) :
  data <> JNull -> data <> JUndefined -> exists v, get_prop data key = Some v.
Proof.
  intros Hnull Hundef.
  destruct data; cbn; try contradiction; eauto.
Qed.

Lemma new_Date_valid (tv : Z) :
  (Z.abs tv <= max_time_value)%Z -> new_Date tv = Some tv.
Proof.
  intros Hrange. unfold new_Date.
  now apply Z.leb_le in Hrange as ->.
Qed.

(** C2, as amended.  For every method and every data argument other
    than [null] and [undefined], [login] sends no request: it sets the
    loading flag and a timeout of 1000 ms, and leaves the user record as
    it is.  When that timeout fires, with [Date.now()] reading [now],
    the callback sets the user record to id 1, name John Doe, plan
    trial, 50 credits, the email [data.email] when that value is truthy
    and user@example.com otherwise, and the date [now] plus 14 days
    (1209600000 ms) as the end of the trial; it then clears the loading
    flag, and it sends no request either. *)
Theorem login_sets_mock_user (method : string) (data : JsVal) (s : State) (now : Z) :
  data <> JNull -> data <> JUndefined ->
  snd (login method data s) = [SetTimeout 1000]
  /\ requests (snd (login method data s)) = []
  /\ user (fst (login method data s)) = user s
  /\ loading (fst (login method data s)) = true
  /\ timeouts (fst (login method data s)) = timeouts s ++ [data]
  /\ exists data_email : JsVal,
       get_prop data "email" = Some data_email
       /\ timeoutFires (length (timeouts s)) now (fst (login method data s))
          = (mkState
               (Some {| id := 1;
                        email := if truthy data_email then data_email
                                 else JStr "user@example.com";
                        name := "John Doe";
                        plan := "trial";
                        credits := 50;
                        trialEnds := new_Date (now + 1209600000) |})
               false (timeouts s),
             [])
       /\ ((Z.abs (now + 1209600000) <= max_time_value)%Z ->
           new_Date (now + 1209600000) = Some (now + 1209600000)%Z).
Proof.
  intros Hnull Hundef.
  repeat (split; [reflexivity |]).
  destruct (get_prop_defined data "email" Hnull Hundef) as [data_email Hget].
  exists data_email. split; [exact Hget |].
  split; [| apply new_Date_valid].
  unfold timeoutFires. cbn [login andThen setLoading setTimeout update fst timeouts].
  rewrite nth_error_last.
  cbn [user loading timeouts]. rewrite remove_nth_last.
  unfold loginCallback. rewrite Hget. reflexivity.
Qed.

Lemma login_sets_mock_user_witness :
  ada <> JNull /\ ada <> JUndefined
  /\ timeoutFires 0 a_clock_reading (fst (login "magic-link" ada init))
     = (mkState (Some (mkUser 1 (JStr "ada@example.com") "John Doe" "trial" 50
                              (Some 1763209600000%Z)))
                false [], []).
Proof.
  assert (Hnull : ada <> JNull) by discriminate.
  assert (Hundef : ada <> JUndefined) by discriminate.
  split; [exact Hnull |]. split; [exact Hundef |].
  destruct (login_sets_mock_user "magic-link" ada init a_clock_reading Hnull Hundef)
    as (_ & _ & _ & _ & _ & data_email & Hget & Hfires & _).
  injection Hget as <-.
  exact Hfires.
Defined.

(** C2 as the specification words it fails for the data argument
    [null], which [res.json()] yields when the server answers with the
    JSON text null: reading [data.email] throws inside the callback, so
    no user record is set and the loading flag stays raised. *)
Lemma login_with_null_data_sets_no_user :
  user (fst (timeoutFires 0 a_clock_reading (fst (login "google" JNull init)))) = None
  /\ loading (fst (timeoutFires 0 a_clock_reading (fst (login "google" JNull init))))
     = true
  /\ snd (timeoutFires 0 a_clock_reading (fst (login "google" JNull init)))
     = [UncaughtTypeError].
Proof. repeat split. Qed.

(** An email that is there but falsy is replaced as well. *)
Lemma login_with_empty_email :
  fst (timeoutFires 0 a_clock_reading
         (fst (login "google" (JObj [("email", JStr EmptyString)]) init)))
  = mkState (Some (mkUser 1 (JStr "user@example.com") "John Doe" "trial" 50
                          (Some 1763209600000%Z)))
            false [].
Proof. reflexivity. Qed.

Lemma login_without_email :
  fst (timeoutFires 0 a_clock_reading (fst (login "google" (JObj []) init)))
  = mkState (Some (mkUser 1 (JStr "user@example.com") "John Doe" "trial" 50
                          (Some 1763209600000%Z)))
            false [].
Proof. reflexivity. Qed.

End Login.

(** ** The application: requests *)

Section Requests.
Import App.

Lemma requests_app (log1 log2 : list Effect) :
  requests (log1 ++ log2) = requests log1 ++ requests log2.
Proof. apply flat_map_app. Qed.

(** No handler of the upload page sends a request. *)
Lemma upload_handlers_send_nothing (ev : UploadPage.Event) (u : UploadPage.State) :
  requests (snd (UploadPage.handle ev u)) = [].
Proof.
  destruct ev; cbn; try reflexivity.
  - unfold UploadPage.startUpload, reading.
    now destruct (Nat.eqb (length (UploadPage.files u)) 0).
  - unfold UploadPage.tick, reading.
    now destruct (Qle_bool 100 (UploadPage.uploadProgress u)).
Qed.

Lemma onUpload_log (h : Handler UploadPage.State) (s : State) :
  snd (onUpload h s) = snd (h (upload s)).
Proof. unfold onUpload. now destruct (h (upload s)). Qed.

Lemma onAuth_log (h : Handler AuthProvider.State) (s : State) :
  snd (onAuth h s) = snd (h (auth s)).
Proof. unfold onAuth. now destruct (h (auth s)). Qed.

(** C4.  Of all the handlers and callbacks of the tree, only the
    Google [onSuccess] handler sends a request, and it sends exactly
    one: a POST to /api/auth/login with a JSON content type, whose body
    is the JSON text of an object with provider google and, as token,
    the credential of the Google response.  The context's [login] and
    its callback send none. *)
Theorem only_google_success_sends_a_request :
  (forall (ev : Event) (s : State),
      requests (snd (handle ev s))
      = match ev with
        | GoogleSuccess credential =>
            [("/api/auth/login",
              {| req_method := "POST";
                 req_headers := [("Content-Type", "application/json")];
                 req_body := JObj [("provider", JStr "google");
                                   ("token", JStr credential)] |})]
        | _ => []
        end)
  /\ (forall (method : string) (data : JsVal) (a : AuthProvider.State),
        requests (snd (AuthProvider.login method data a)) = [])
  /\ (forall (data : JsVal) (now : Z) (a : AuthProvider.State),
        requests (snd (AuthProvider.loginCallback data now a)) = []).
Proof.
  split; [| split].
  - intros ev s. destruct ev; try reflexivity.
    + (* the fetch settles *)
      cbn [handle]. unfold googleOnSuccessResume.
      destruct outcome as [| ok [data |]]; try reflexivity;
        destruct ok; reflexivity.
    + (* a magic-link timeout *)
      cbn [handle]. unfold magicLinkTimeoutFires.
      now destruct (nth_error (magicLinks s) n).
    + (* a login timeout *)
      cbn [handle]. rewrite onAuth_log. unfold AuthProvider.timeoutFires.
      destruct (nth_error (AuthProvider.timeouts (auth s)) n) as [data |];
        [| reflexivity].
      unfold AuthProvider.loginCallback.
      now destruct (get_prop data "email").
    + (* the effect *)
      cbn [handle]. unfold useEffect.
      now destruct (has_user s && String.eqb (currentPage s) "landing").
    + (* the upload page *)
      cbn [handle]. rewrite onUpload_log. apply upload_handlers_send_nothing.
  - reflexivity.
  - intros data now a. unfold AuthProvider.loginCallback.
    now destruct (get_prop data "email").
Qed.

End Requests.

(** ** The application: what the handlers leave alone *)

Section Frames.
Import App.

Lemma onAuth_state (h : Handler AuthProvider.State) (s : State) :
  fst (onAuth h s)
  = mkState (fst (h (auth s))) (currentPage s) (showAuthModal s) (modal s)
            (magicLinks s) (pendingLogins s) (upload s) (dashboard s).
Proof. unfold onAuth. now destruct (h (auth s)). Qed.

Lemma onUpload_state (h : Handler UploadPage.State) (s : State) :
  fst (onUpload h s)
  = mkState (auth s) (currentPage s) (showAuthModal s) (modal s)
            (magicLinks s) (pendingLogins s) (fst (h (upload s))) (dashboard s).
Proof. unfold onUpload. now destruct (h (upload s)). Qed.

Lemma handle_keeps_dashboard (ev : Event) (s : State) :
  dashboard (fst (handle ev s)) = dashboard s.
Proof.
  destruct ev; try reflexivity; cbn [handle].
  - unfold googleOnSuccessResume.
    destruct outcome as [| ok [data |]]; try reflexivity; destruct ok; reflexivity.
  - unfold magicLinkTimeoutFires.
    now destruct (nth_error (magicLinks s) n).
  - now rewrite onAuth_state.
  - unfold useEffect.
    now destruct (has_user s && String.eqb (currentPage s) "landing").
  - now rewrite onUpload_state.
Qed.

Lemma run_reaches (evs : list Event) :
  forall s s' : State, reachable s -> run evs s = Some s' -> reachable s'.
Proof.
  induction evs as [| ev rest IH]; intros s s' Hs Hrun; cbn [run] in Hrun.
  - now injection Hrun as <-.
  - destruct (enabled s ev) eqn:Hen; [| discriminate].
    apply (IH _ _ (reach_step _ _ _ Hs (step_handle s ev Hen)) Hrun).
Qed.

Lemma reachable_dashboard_state (s : State) :
  reachable s -> dashboard s = Dashboard.init.
Proof.
  induction 1 as [| s ev s' Hreach IH Hstep].
  - reflexivity.
  - destruct Hstep as [s ev Hen]. cbn [commit dashboard].
    destruct (shows DashboardView (fst (handle ev s))); [| reflexivity].
    now rewrite handle_keeps_dashboard.
Qed.

(** The file list of the upload page stays within its cap in every
    state the application reaches. *)
Lemma reachable_files_capped (s : State) :
  reachable s -> length (UploadPage.files (upload s)) <= 100.
Proof.
  induction 1 as [| s ev s' Hreach IH Hstep].
  - cbn. lia.
  - destruct Hstep as [s ev Hen]. cbn [commit upload].
    destruct (shows UploadView (fst (handle ev s))); [| cbn; lia].
    destruct ev; try exact IH; cbn [handle].
    + unfold googleOnSuccessResume.
      destruct outcome as [| ok [data |]]; try exact IH; destruct ok; exact IH.
    + unfold magicLinkTimeoutFires.
      destruct (nth_error (magicLinks s) n); exact IH.
    + rewrite onAuth_state. exact IH.
    + unfold useEffect.
      destruct (has_user s && String.eqb (currentPage s) "landing"); exact IH.
    + rewrite onUpload_state. cbn [upload].
      apply handle_keeps_cap, IH.
Qed.

End Frames.

(** ** Dashboard *)

Section DashboardFacts.
Import App Examples.

(** C5.  In every state the application reaches, whoever is logged in
    and whatever was uploaded, the invoice list of the dashboard is the
    literal of the source: three invoices with ids 1, 2, 3, file names
    invoice-001.pdf, receipt-002.jpg, bill-003.png and statuses
    completed, processing, failed, in this order; so the rows rendered
    from it are always the same. *)
Theorem dashboard_invoices_static (s : State) :
  reachable s ->
  Dashboard.invoices (dashboard s) = Dashboard.initial_invoices
  /\ map Dashboard.id (Dashboard.invoices (dashboard s)) = [1; 2; 3]%Z
  /\ map Dashboard.filename (Dashboard.invoices (dashboard s))
     = ["invoice-001.pdf"; "receipt-002.jpg"; "bill-003.png"]
  /\ map Dashboard.status (Dashboard.invoices (dashboard s))
     = ["completed"; "processing"; "failed"]
  /\ Dashboard.render (dashboard s) = Dashboard.render Dashboard.init.
Proof.
  intros Hreach. rewrite (reachable_dashboard_state s Hreach).
  repeat split.
Qed.

Lemma dashboard_invoices_static_witness :
  reachable back_on_dashboard
  /\ map Dashboard.filename (Dashboard.invoices (dashboard back_on_dashboard))
     = ["invoice-001.pdf"; "receipt-002.jpg"; "bill-003.png"].
Proof.
  assert (Hreach : reachable back_on_dashboard).
  { apply (run_reaches back_and_forth init _ reach_init).
    vm_compute. reflexivity. }
  split; [exact Hreach |].
  exact (proj1 (proj2 (proj2 (dashboard_invoices_static _ Hreach)))).
Defined.

End DashboardFacts.

(** ** InvoiceAI: which page is rendered *)

Section Pages.
Import App Examples.

Lemma has_user_true (s : State) :
  has_user s = true <-> AuthProvider.user (auth s) <> None.
Proof.
  unfold has_user. destruct (AuthProvider.user (auth s)); split;
    congruence || discriminate.
Qed.

Lemma has_user_false (s : State) :
  has_user s = false <-> AuthProvider.user (auth s) = None.
Proof.
  unfold has_user. destruct (AuthProvider.user (auth s)); split;
    congruence || discriminate.
Qed.

(** C6.  InvoiceAI renders the landing page exactly when [currentPage]
    is the string landing and there is no user, the upload page exactly
    when it is upload and there is a user, the dashboard exactly when it
    is dashboard and there is a user; in no state does it render more
    than one of the three. *)
Theorem page_selected_by_flag_and_user (s : State) :
  (In LandingView (pages (render s))
   <-> currentPage s = "landing" /\ AuthProvider.user (auth s) = None)
  /\ (In UploadView (pages (render s))
      <-> currentPage s = "upload" /\ AuthProvider.user (auth s) <> None)
  /\ (In DashboardView (pages (render s))
      <-> currentPage s = "dashboard" /\ AuthProvider.user (auth s) <> None)
  /\ length (pages (render s)) <= 1.
Proof.
  cbn [render pages]. unfold render_pages, has_user.
  destruct (AuthProvider.user (auth s)) as [u |];
    destruct (String.eqb_spec (currentPage s) "landing") as [Hl | Hl];
    destruct (String.eqb_spec (currentPage s) "upload") as [Hu | Hu];
    destruct (String.eqb_spec (currentPage s) "dashboard") as [Hd | Hd];
    try (rewrite Hl in Hu; discriminate Hu);
    try (rewrite Hl in Hd; discriminate Hd);
    try (rewrite Hu in Hd; discriminate Hd);
    cbn; repeat split; intros;
    intuition (try congruence; try discriminate; try lia).
Qed.

(** C7.  Navigation returns null exactly when the user record is null;
    with a user it returns the bar: the dashboard and upload buttons,
    wired to [handleNavigation] with their page, the credits of the
    user, and the logout button, wired to [logout]. *)
Theorem navigation_iff_user (s : State) :
  (navigation (render s) = None <-> AuthProvider.user (auth s) = None)
  /\ (forall u : AuthProvider.User,
        AuthProvider.user (auth s) = Some u ->
        exists bar : NavBar,
          navigation (render s) = Some bar
          /\ content (dashboardButton bar) = "Dashboard"
          /\ handle (onClick (dashboardButton bar)) = handleNavigation "dashboard"
          /\ highlighted (dashboardButton bar) = String.eqb (currentPage s) "dashboard"
          /\ content (uploadButton bar) = "Upload"
          /\ handle (onClick (uploadButton bar)) = handleNavigation "upload"
          /\ highlighted (uploadButton bar) = String.eqb (currentPage s) "upload"
          /\ creditsRemaining bar = AuthProvider.credits u
          /\ handle (onClick (logoutButton bar)) = logout).
Proof.
  cbn [render navigation]. unfold Navigation. split.
  - destruct (AuthProvider.user (auth s)); split; congruence || discriminate.
  - intros u ->. eexists. split; [reflexivity |]. cbn. repeat split.
Qed.

End Pages.

(** ** AuthModal: a Google sign-in that fails *)

Section GoogleFailure.
Import App Examples.

(** C9.  When the request of the Google handler is rejected, or
    answered with a response that is not ok, the rest of the handler
    only logs the error: the authentication state is what it was (no
    loading flag raised, no login timeout set, the same user record), so
    the context's [login] has not run, a null user stays null, and an
    open modal stays open, also after the next render.  The [onError]
    handler logs a message and changes nothing. *)
Theorem failed_google_login_changes_nothing (s : State) (outcome : FetchOutcome) :
  outcome = FetchRejected \/ (exists json, outcome = FetchResponse false json) ->
  snd (handle (GoogleFetchSettled outcome) s) = [ConsoleError "Google login error:"]
  /\ fst (handle (GoogleFetchSettled outcome) s)
     = mkState (auth s) (currentPage s) (showAuthModal s) (modal s) (magicLinks s)
               (Nat.pred (pendingLogins s)) (upload s) (dashboard s)
  /\ auth (commit (fst (handle (GoogleFetchSettled outcome) s))) = auth s
  /\ (AuthProvider.user (auth s) = None ->
      AuthProvider.user (auth (commit (fst (handle (GoogleFetchSettled outcome) s))))
      = None)
  /\ (showAuthModal s = true ->
      showAuthModal (commit (fst (handle (GoogleFetchSettled outcome) s))) = true)
  /\ handle GoogleError s = (s, [ConsoleLog "Google Login Failed"]).
Proof.
  intros [-> | [json ->]]; repeat split; auto.
Qed.

Lemma failed_google_login_witness :
  (FetchResponse false None = FetchRejected
   \/ exists json, FetchResponse false None = FetchResponse false json)
  /\ enabled waiting_for_google (GoogleFetchSettled (FetchResponse false None)) = true
  /\ AuthProvider.user
       (auth (commit (fst (handle (GoogleFetchSettled (FetchResponse false None))
                                  waiting_for_google)))) = None
  /\ showAuthModal
       (commit (fst (handle (GoogleFetchSettled (FetchResponse false None))
                            waiting_for_google))) = true.
Proof.
  assert (Hfailed : FetchResponse false None = FetchRejected
                    \/ exists json, FetchResponse false None = FetchResponse false json).
  { right. now exists None. }
  split; [exact Hfailed |]. split; [reflexivity |].
  destruct (failed_google_login_changes_nothing waiting_for_google _ Hfailed)
    as (_ & _ & _ & Huser & Hmodal & _).
  split; [apply Huser | apply Hmodal]; reflexivity.
Defined.

End GoogleFailure.

(** ** InvoiceAI: leaving the landing page *)

Section SignedIn.
Import App Examples.

(** With a user record the landing page is not rendered, in any state. *)
Lemma landing_hidden_from_user (s : State) :
  has_user s = true -> ~ In LandingView (render_pages s).
Proof.
  intros Huser. unfold render_pages. rewrite Huser, andb_false_r.
  destruct (String.eqb (currentPage s) "upload");
    destruct (String.eqb (currentPage s) "dashboard"); cbn; intuition discriminate.
Qed.

(** C10.  In every reachable state with a user record, the landing
    page is not rendered; and if [currentPage] is still landing there,
    the effect runs and sets it to dashboard, keeping the user, after
    which the dashboard is what is rendered. *)
Theorem signed_in_never_sees_landing (s : State) :
  reachable s ->
  AuthProvider.user (auth s) <> None ->
  ~ In LandingView (pages (render s))
  /\ (currentPage s = "landing" ->
      enabled s EffectRuns = true
      /\ currentPage (commit (fst (handle EffectRuns s))) = "dashboard"
      /\ auth (commit (fst (handle EffectRuns s))) = auth s
      /\ pages (render (commit (fst (handle EffectRuns s)))) = [DashboardView]).
Proof.
  intros _ Huser. apply has_user_true in Huser. split.
  - exact (landing_hidden_from_user s Huser).
  - intros Hpage. split; [reflexivity |].
    cbn [handle]. unfold useEffect. rewrite Huser, Hpage. cbn.
    repeat split. unfold render_pages, has_user in *. cbn.
    destruct (AuthProvider.user (auth s)); [reflexivity | discriminate].
Qed.

Lemma signed_in_never_sees_landing_witness :
  reachable signed_in_on_landing
  /\ AuthProvider.user (auth signed_in_on_landing) <> None
  /\ currentPage signed_in_on_landing = "landing"
  /\ ~ In LandingView (pages (render signed_in_on_landing))
  /\ currentPage (commit (fst (handle EffectRuns signed_in_on_landing))) = "dashboard".
Proof.
  assert (Hreach : reachable signed_in_on_landing).
  { apply (run_reaches sign_in init _ reach_init). vm_compute. reflexivity. }
  assert (Huser : AuthProvider.user (auth signed_in_on_landing) <> None)
    by discriminate.
  destruct (signed_in_never_sees_landing signed_in_on_landing Hreach Huser)
    as (Hhidden & Heffect).
  split; [exact Hreach |]. split; [exact Huser |]. split; [reflexivity |].
  split; [exact Hhidden |].
  exact (proj1 (proj2 (Heffect eq_refl))).
Defined.

End SignedIn.

(** ** UploadPage: removing a file, and drops beyond the cap *)

Section UploadListEdges.
Import UploadPage Examples MoreExamples.

Lemma filter_index_past {A : Type} (k from : nat) (arr : list A) :
  k < from -> filter_index (fun idx => negb (Nat.eqb idx k)) from arr = arr.
Proof.
  revert from. induction arr as [| x rest IH]; intros from Hlt; cbn.
  - reflexivity.
  - destruct (Nat.eqb_spec from k) as [Heq | _]; [lia |].
    cbn. f_equal. apply IH. lia.
Qed.

Lemma filter_index_drops_one {A : Type} (k from : nat) (arr : list A) :
  from <= k ->
  filter_index (fun idx => negb (Nat.eqb idx k)) from arr
  = firstn (k - from) arr ++ skipn (S (k - from)) arr.
Proof.
  revert from. induction arr as [| x rest IH]; intros from Hle; cbn.
  - now rewrite firstn_nil.
  - destruct (Nat.eqb_spec from k) as [-> | Hneq]; cbn.
    + rewrite Nat.sub_diag. cbn. apply filter_index_past. lia.
    + replace (k - from) with (S (k - S from)) by lia.
      cbn [firstn skipn app]. f_equal. apply IH. lia.
Qed.

(** X1.  The remove button of row [i] takes out the file at index [i] and
    no other: the files before it and after it stay, in their order.
    An index beyond the list leaves the list as it is. *)
Theorem remove_file_takes_out_index (s : State) (i : nat) :
  files (fst (handle (RemoveFile i) s))
  = firstn i (files s) ++ skipn (S i) (files s)
  /\ (i < length (files s) ->
      S (length (files (fst (handle (RemoveFile i) s)))) = length (files s))
  /\ (forall j : nat,
        nth_error (files (fst (handle (RemoveFile i) s))) j
        = nth_error (files s) (if Nat.ltb j i then j else S j))
  /\ (length (files s) <= i -> files (fst (handle (RemoveFile i) s)) = files s).
Proof.
  assert (Hfiles : files (fst (handle (RemoveFile i) s))
                   = firstn i (files s) ++ skipn (S i) (files s)).
  { cbn. rewrite filter_index_drops_one by lia. now rewrite Nat.sub_0_r. }
  rewrite Hfiles. split; [reflexivity |]. split; [| split].
  - intros Hlt. rewrite length_app, length_firstn, length_skipn. lia.
  - intros j. destruct (Nat.ltb_spec j i) as [Hji | Hij].
    + destruct (Nat.le_gt_cases (length (files s)) j) as [Hout | Hin].
      * rewrite (proj2 (nth_error_None (files s) j) Hout).
        apply nth_error_None.
        rewrite length_app, length_firstn, length_skipn. lia.
      * rewrite nth_error_app1 by (rewrite length_firstn; lia).
        rewrite nth_error_firstn. now apply Nat.ltb_lt in Hji as ->.
    + destruct (Nat.le_gt_cases (length (files s)) i) as [Hout | Hin].
      * rewrite firstn_all2, skipn_all2, app_nil_r by lia.
        rewrite (proj2 (nth_error_None (files s) j)) by lia.
        symmetry. apply nth_error_None. lia.
      * rewrite nth_error_app2 by (rewrite length_firstn; lia).
        rewrite length_firstn, Nat.min_l by lia.
        rewrite nth_error_skipn. f_equal. lia.
  - intros Hout. now rewrite firstn_all2, skipn_all2, app_nil_r by lia.
Qed.

(** [arr.slice(0, k)] with [k < 0] drops the last [-k] elements. *)
Lemma slice_to_negative {A : Type} (arr : list A) (k : Z) :
  (k < 0)%Z -> slice arr 0 k = firstn (length arr - Z.to_nat (- k)) arr.
Proof.
  intros Hk. unfold slice, relative_index.
  destruct (Z.ltb_spec k 0) as [_ | Hge]; [| lia].
  change (0 <? 0)%Z with false. cbv iota.
  rewrite (Z.min_l 0) by lia.
  change (Z.to_nat 0) with 0. cbn [skipn].
  f_equal. lia.
Qed.

(** X2.  The cap of 100 rests on the list being within it.  On a list of
    more than 100 files the end index [100 - prev.length] of the slice
    is negative and counts from the end, so [handleDrop] and
    [handleFileSelect] still append: all the new files but the last
    [prev.length - 100] of them. *)
Theorem drop_beyond_cap_still_appends (s : State) (newFiles : list File) :
  100 < length (files s) ->
  files (fst (handleDrop newFiles s))
  = files s ++ firstn (length newFiles - (length (files s) - 100)) newFiles
  /\ files (fst (handleFileSelect newFiles s))
     = files s ++ firstn (length newFiles - (length (files s) - 100)) newFiles
  /\ length (files (fst (handleDrop newFiles s)))
     = length (files s) + (length newFiles - (length (files s) - 100)).
Proof.
  intros Hover.
  assert (Hslice : slice newFiles 0 (100 - Z.of_nat (length (files s)))
                   = firstn (length newFiles - (length (files s) - 100)) newFiles).
  { rewrite slice_to_negative by lia. f_equal. lia. }
  change (files (fst (handleDrop newFiles s)))
    with (files s ++ slice newFiles 0 (100 - Z.of_nat (length (files s)))).
  change (files (fst (handleFileSelect newFiles s)))
    with (files s ++ slice newFiles 0 (100 - Z.of_nat (length (files s)))).
  rewrite Hslice. repeat split.
  rewrite length_app, length_firstn. lia.
Qed.

Lemma drop_beyond_cap_witness :
  100 < length (files over_cap)
  /\ length (files (fst (handleDrop
                           [sample_file 1; sample_file 2; sample_file 3; sample_file 4;
                            sample_file 5] over_cap))) = 105.
Proof.
  assert (Hover : 100 < length (files over_cap)).
  { cbn [files over_cap]. rewrite repeat_length. lia. }
  split; [exact Hover |].
  destruct (drop_beyond_cap_still_appends over_cap
              [sample_file 1; sample_file 2; sample_file 3; sample_file 4;
               sample_file 5] Hover) as (_ & _ & Hlen).
  rewrite Hlen. cbn [files over_cap]. rewrite repeat_length. reflexivity.
Defined.

End UploadListEdges.

(** ** UploadPage: the interval, the bounds of the progress, the rendering *)

Section UploadTimer.
Import UploadPage UploadPageView Examples MoreExamples.

Lemma enabled_interval (s : State) (id : nat) (random : Q) :
  enabled s (IntervalFires id random) = true ->
  In id (intervals s) /\ (0 <= random)%Q /\ (random < 1)%Q.
Proof.
  cbn [enabled]. intros Hen.
  apply andb_prop in Hen as [Hen Hhi]. apply andb_prop in Hen as [Hin Hlo].
  split; [| split].
  - apply existsb_exists in Hin as (j & Hj & Heq).
    now apply Nat.eqb_eq in Heq as ->.
  - now apply Qle_bool_iff.
  - apply Qnot_le_lt. intros Hle. apply Qle_bool_iff in Hle.
    rewrite Hle in Hhi. discriminate.
Qed.

Lemma reachable_lifetime (s : State) : reachable s -> lifetime s.
Proof.
  induction 1 as [| s ev s' _ IH Hstep].
  - apply life_init.
  - exact (life_step _ _ _ IH Hstep).
Qed.

(** Over the mounts of the page, the mounted instance is either idle
    with no interval, or uploading with the one interval that the last
    [startUpload] set; the ids handed out lie below the next one, and no
    timer is held twice. *)
Lemma lifetime_timer (s : State) :
  lifetime s ->
  ((isUploading s = false /\ intervals s = [])
   \/ (isUploading s = true /\ intervals s = [Nat.pred (nextInterval s)]
       /\ nextInterval s <> 0))
  /\ (forall id : nat, In id (intervals s ++ orphans s) -> id < nextInterval s)
  /\ NoDup (intervals s ++ orphans s).
Proof.
  induction 1 as [| s ev s' Hlife (IH & Hbelow & Hnodup) Hstep
                  | s Hlife (IH & Hbelow & Hnodup)].
  - split; [left; now split |]. split; [intros id [] | constructor].
  - destruct Hstep as [s ev Hen].
    destruct ev as [dropped | | | | chosen | | i | | id random];
      try (split; [exact IH | split; [exact Hbelow | exact Hnodup]]).
    + (* the process button *)
      cbn [enabled] in Hen. apply andb_prop in Hen as [Hne Hidle].
      apply negb_true_iff in Hidle.
      destruct IH as [[_ Hnone] | [Hbusy _]]; [| congruence].
      cbn [handle]. unfold startUpload, reading.
      destruct (Nat.eqb (length (files s)) 0); [discriminate |].
      rewrite Hnone in Hbelow, Hnodup. cbn [app] in Hbelow, Hnodup.
      cbn. rewrite Hnone. split; [right; now repeat split |]. split.
      * intros id [<- | Hin]; [lia | specialize (Hbelow id Hin); lia].
      * constructor; [| exact Hnodup].
        intros Hin. specialize (Hbelow _ Hin). lia.
    + (* a tick *)
      apply enabled_interval in Hen as (Hin & _ & _).
      destruct IH as [[_ Hnone] | (Hbusy & Hone & Hnext)].
      { rewrite Hnone in Hin. contradiction. }
      cbn [handle]. unfold tick, reading.
      destruct (Qle_bool 100 (uploadProgress s)).
      * rewrite Hone in Hin, Hbelow, Hnodup. destruct Hin as [<- | []].
        cbn. rewrite Hone. cbn. rewrite Nat.eqb_refl. cbn.
        split; [left; now split |]. split.
        -- intros id Hin. apply Hbelow. now right.
        -- now inversion Hnodup.
      * cbn. split; [right; now repeat split | split; assumption].
  - cbn [unmounted isUploading intervals orphans nextInterval app].
    split; [left; now split |]. split; assumption.
Qed.

(** Over the mounts of the page the progress is a double in [0, 115),
    and below 100 it is at most the double next to 100. *)
Lemma lifetime_progress_range (s : State) :
  lifetime s ->
  (0 <= uploadProgress s)%Q /\ (uploadProgress s < 115)%Q
  /\ ((uploadProgress s < 100)%Q -> (uploadProgress s <= Binary64.below_100)%Q)
  /\ Binary64.is_binary64 (uploadProgress s) = true.
Proof.
  assert (Hzero : (0 <= 0)%Q /\ (0 < 115)%Q
                  /\ ((0 < 100)%Q -> (0 <= Binary64.below_100)%Q)
                  /\ Binary64.is_binary64 0 = true).
  { split; [lra |]. split; [lra |].
    split; [intros _; vm_compute; discriminate | vm_compute; reflexivity]. }
  induction 1 as [| s ev s' Hlife IH Hstep | s Hlife IH].
  - exact Hzero.
  - destruct Hstep as [s ev Hen].
    destruct ev as [dropped | | | | chosen | | i | | id random];
      try exact IH.
    + cbn [handle]. unfold startUpload, reading.
      destruct (Nat.eqb (length (files s)) 0); [exact IH | exact Hzero].
    + apply enabled_interval in Hen as (_ & Hlo & Hhi).
      destruct IH as (Hnonneg & _ & Hgrid & _).
      destruct (Qlt_le_dec (uploadProgress s) 100) as [Hlt | Hge].
      * cbn [handle]. rewrite (tick_below_100 s id random Hlt).
        cbn [fst uploadProgress].
        destruct (increment_range random Hlo Hhi) as [Hinc Hinc15].
        specialize (Hgrid Hlt). unfold Binary64.add.
        split; [apply round_nonneg_result; lra |]. split; [| split].
        -- apply Qle_lt_trans with (Binary64.round (Binary64.below_100 + 15)).
           ++ apply round_mono. lra.
           ++ vm_compute. reflexivity.
        -- apply rounded_below_100. lra.
        -- apply round_is_binary64.
      * cbn [handle]. rewrite (tick_from_100 s id random Hge).
        cbn [fst uploadProgress].
        split; [lra |]. split; [lra |].
        split; [intros Habsurd; lra | vm_compute; reflexivity].
  - exact Hzero.
Qed.

(** X4.  In every state the page reaches, over any number of mounts
    and whenever it is unmounted, the progress is a double in
    [0, 115): below 100 it is at most the double next to 100, and the
    binary64 sum of it and of an increment of at most 15 is below 115;
    from 100 on it is set to 100.  So the percentage that the progress
    bar prints, [Math.round(uploadProgress)], lies between 0 and 115; it
    is not bounded by 100. *)
Theorem progress_within_0_and_115 (s : State) :
  lifetime s ->
  (0 <= uploadProgress s)%Q /\ (uploadProgress s < 115)%Q
  /\ Binary64.is_binary64 (uploadProgress s) = true
  /\ (forall (list : FileList) (bar : ProgressBar),
        render s = Some list -> progressBar list = Some bar ->
        (0 <= percent bar <= 115)%Z /\ width bar = uploadProgress s).
Proof.
  intros Hlife.
  destruct (lifetime_progress_range s Hlife) as (Hlo & Hhi & _ & Hdouble).
  split; [exact Hlo |]. split; [exact Hhi |]. split; [exact Hdouble |].
  intros list bar Hrender Hbar. unfold render in Hrender.
  destruct (Nat.ltb 0 (length (files s))); [| discriminate].
  injection Hrender as <-. cbn [progressBar] in Hbar.
  destruct (isUploading s); [| discriminate].
  injection Hbar as <-. cbn [percent width]. split; [| reflexivity].
  unfold Math_round. split.
  - change 0%Z with (Qfloor 0). apply Qfloor_resp_le. lra.
  - change 115%Z with (Qfloor (115 + (1 # 2))). apply Qfloor_resp_le. lra.
Qed.

Lemma progress_within_witness :
  lifetime overshot
  /\ exists (list : FileList) (bar : ProgressBar),
       render overshot = Some list
       /\ progressBar list = Some bar
       /\ percent bar = 113%Z
       /\ (0 <= percent bar <= 115)%Z.
Proof.
  assert (Hlife : lifetime overshot).
  { apply reachable_lifetime.
    apply (run_reachable (upload_run (repeat (15 # 16)%Q 8)) init _ reach_init).
    vm_compute. reflexivity. }
  destruct (progress_within_0_and_115 overshot Hlife) as (_ & _ & _ & Hbar).
  split; [exact Hlife |].
  eexists. eexists.
  split; [reflexivity |]. split; [reflexivity |]. split; [reflexivity |].
  exact (proj1 (Hbar _ _ eq_refl eq_refl)).
Defined.

Lemma file_rows_length (i : nat) (fs : list File) :
  length (file_rows i fs) = length fs.
Proof.
  revert i. induction fs as [| file rest IH]; intros i; cbn.
  - reflexivity.
  - now rewrite IH.
Qed.

Lemma file_rows_nth (fs : list File) :
  forall i j : nat,
    nth_error (file_rows i fs) j
    = option_map (fun file => mkFileRow (name file) (RemoveFile (i + j)))
                 (nth_error fs j).
Proof.
  induction fs as [| file rest IH]; intros i j.
  - now destruct j.
  - destruct j as [| j]; cbn.
    + now rewrite Nat.add_0_r.
    + rewrite IH. now rewrite Nat.add_succ_r.
Qed.

(** X5.  What the page shows below the drop area, in any state.  Nothing
    when the list is empty, even during an upload.  Otherwise the list
    with one row per file, row [j] showing the name of file [j] and
    removing file [j], and below it either the progress bar (while
    uploading) or the process button (otherwise), never both and never
    neither.  The buttons shown are the events the page accepts: clear
    all, remove for the indices of the list, and process. *)
Theorem upload_page_sections (s : State) :
  (render s = None <-> files s = [])
  /\ (forall list : FileList,
        render s = Some list ->
        selected list = length (files s)
        /\ length (rows list) = length (files s)
        /\ (forall j : nat,
              nth_error (rows list) j
              = option_map (fun file => mkFileRow (name file) (RemoveFile j))
                           (nth_error (files s) j))
        /\ (progressBar list <> None <-> isUploading s = true)
        /\ (processButton list <> None <-> isUploading s = false))
  /\ (enabled s ClearAll = true <-> render s <> None)
  /\ (forall i : nat,
        enabled s (RemoveFile i) = true
        <-> exists (list : FileList) (row : FileRow),
              render s = Some list /\ nth_error (rows list) i = Some row)
  /\ (enabled s ClickProcess = true
      <-> exists (list : FileList) (button : ProcessButton),
            render s = Some list /\ processButton list = Some button).
Proof.
  unfold render. cbn [enabled].
  destruct (files s) as [| file rest] eqn:Hfiles.
  - cbn. repeat split; try discriminate; try congruence.
    + intros (list & row & Hnone & _). discriminate.
    + intros (list & button & Hnone & _). discriminate.
  - change (Nat.ltb 0 (length (file :: rest))) with true. cbv iota.
    split; [split; discriminate |]. split; [| split; [| split]].
    + intros list [= <-]. cbn [selected rows progressBar processButton].
      split; [reflexivity |].
      split; [exact (file_rows_length 0 (file :: rest)) |]. split.
      * intros j. exact (file_rows_nth (file :: rest) 0 j).
      * destruct (isUploading s); cbn; split; split;
          congruence || discriminate.
    + cbn. split; [discriminate | reflexivity].
    + intros i. rewrite Nat.ltb_lt. split.
      * intros Hlt.
        destruct (nth_error (file :: rest) i) as [f |] eqn:Hnth.
        -- eexists. eexists. split; [reflexivity |]. cbn [rows].
           rewrite (file_rows_nth (file :: rest) 0 i), Hnth. reflexivity.
        -- apply nth_error_None in Hnth. lia.
      * intros (list & row & [= <-] & Hrow). cbn [rows] in Hrow.
        change (i < length (file :: rest)).
        rewrite <- (file_rows_length 0 (file :: rest)).
        apply nth_error_Some.
        assert (Hsome : nth_error (file_rows 0 (file :: rest)) i = Some row)
          by exact Hrow.
        congruence.
    + cbn [length Nat.eqb negb andb]. split.
      * intros Hidle. apply negb_true_iff in Hidle.
        eexists. eexists. split; [reflexivity |].
        cbn [processButton]. rewrite Hidle. reflexivity.
      * intros (list & button & [= <-] & Hbutton). cbn [processButton] in Hbutton.
        destruct (isUploading s); [discriminate | reflexivity].
Qed.

End UploadTimer.

(** ** The application: what each event does to each cell *)

Section Projections.
Import App.

Ltac by_cases_of ev s :=
  destruct ev; try reflexivity; cbn [handle];
  unfold googleOnSuccessResume, magicLinkTimeoutFires, useEffect;
  rewrite ?onAuth_state, ?onUpload_state;
  repeat match goal with
         | |- context [match ?x with _ => _ end] => is_var x; destruct x; cbn [negb]
         end;
  repeat match goal with
         | |- context [match ?x with _ => _ end] => destruct x
         end;
  reflexivity.

Lemma handle_currentPage (ev : Event) (s : State) :
  currentPage (fst (handle ev s))
  = match ev with
    | ClickNavDashboard => "dashboard"
    | ClickNavUpload => "upload"
    | EffectRuns =>
        if has_user s && String.eqb (currentPage s) "landing"
        then "dashboard" else currentPage s
    | _ => currentPage s
    end.
Proof. by_cases_of ev s. Qed.

Lemma handle_auth (ev : Event) (s : State) :
  auth (fst (handle ev s))
  = match ev with
    | GoogleFetchSettled (FetchResponse true (Some data)) =>
        fst (AuthProvider.login "google" data (auth s))
    | MagicLinkTimeout n =>
        match nth_error (magicLinks s) n with
        | Some address =>
            fst (AuthProvider.login "magic-link" (JObj [("email", JStr address)])
                                    (auth s))
        | None => auth s
        end
    | LoginTimeout n now => fst (AuthProvider.timeoutFires n now (auth s))
    | ClickLogout => fst (AuthProvider.logout (auth s))
    | _ => auth s
    end.
Proof. by_cases_of ev s. Qed.

Lemma handle_upload (ev : Event) (s : State) :
  upload (fst (handle ev s))
  = match ev with
    | Upload ev' => fst (UploadPage.handle ev' (upload s))
    | _ => upload s
    end.
Proof. by_cases_of ev s. Qed.

Lemma handle_showAuthModal (ev : Event) (s : State) :
  showAuthModal (fst (handle ev s))
  = match ev with
    | ClickSignIn | ClickStartFreeTrial => true
    | ClickBackdrop | ClickModalX => false
    | GoogleFetchSettled (FetchResponse true (Some _)) => false
    | MagicLinkTimeout n =>
        match nth_error (magicLinks s) n with
        | Some _ => false
        | None => showAuthModal s
        end
    | _ => showAuthModal s
    end.
Proof. by_cases_of ev s. Qed.

Lemma handle_modal (ev : Event) (s : State) :
  modal (fst (handle ev s))
  = match ev with
    | ClickContinueWithEmail =>
        mkModal "magic-link" (email (modal s)) (isSubmitting (modal s))
    | ClickBackToLogin => mkModal "login" (email (modal s)) (isSubmitting (modal s))
    | ChangeEmail value => mkModal (mode (modal s)) value (isSubmitting (modal s))
    | SubmitMagicLink => mkModal (mode (modal s)) (email (modal s)) true
    | MagicLinkTimeout n =>
        match nth_error (magicLinks s) n with
        | Some _ => mkModal (mode (modal s)) (email (modal s)) false
        | None => modal s
        end
    | _ => modal s
    end.
Proof. by_cases_of ev s. Qed.

Lemma handle_magicLinks (ev : Event) (s : State) :
  magicLinks (fst (handle ev s))
  = match ev with
    | SubmitMagicLink => magicLinks s ++ [email (modal s)]
    | MagicLinkTimeout n =>
        match nth_error (magicLinks s) n with
        | Some _ => AuthProvider.remove_nth n (magicLinks s)
        | None => magicLinks s
        end
    | _ => magicLinks s
    end.
Proof. by_cases_of ev s. Qed.

Lemma handle_pendingLogins (ev : Event) (s : State) :
  pendingLogins (fst (handle ev s))
  = match ev with
    | GoogleSuccess _ => S (pendingLogins s)
    | GoogleFetchSettled _ => Nat.pred (pendingLogins s)
    | _ => pendingLogins s
    end.
Proof. by_cases_of ev s. Qed.

End Projections.

(** ** The application: invariants of its reachable states *)

Section AppInvariants.
Import App Examples MoreExamples.

(** The cells and timers of the upload page inside the application
    are always in a state of the lifetime of the page, so what holds
    over the mounts of the page holds in the application. *)
Lemma app_upload_lifetime (s : State) :
  reachable s -> UploadPage.lifetime (upload s).
Proof.
  induction 1 as [| s ev s' Hreach IH Hstep].
  - apply UploadPage.life_init.
  - destruct Hstep as [s ev Hen]. cbn [commit upload].
    assert (Hhandled : UploadPage.lifetime (upload (fst (handle ev s)))).
    { rewrite handle_upload. destruct ev; try exact IH.
      cbn [enabled] in Hen. apply andb_prop in Hen as [_ Hen].
      apply (UploadPage.life_step _ ev _ IH). now constructor. }
    destruct (shows UploadView (fst (handle ev s))); [exact Hhandled |].
    now apply UploadPage.life_unmount.
Qed.

(** Only the handlers of the upload page clear an interval. *)
Lemma clears_only_from_upload (ev : Event) (s : State) (id : nat) :
  In (ClearInterval id) (snd (handle ev s)) -> exists ev', ev = Upload ev'.
Proof.
  destruct ev; cbn [handle]; try (now eauto);
    unfold googleOnSuccessResume, magicLinkTimeoutFires, useEffect;
    rewrite ?onAuth_log;
    unfold AuthProvider.timeoutFires, AuthProvider.loginCallback,
      AuthProvider.logout;
    repeat match goal with
           | |- context [match ?x with _ => _ end] => is_var x; destruct x; cbn [negb]
           end;
    repeat match goal with
           | |- context [match ?x with _ => _ end] => destruct x
           end;
    cbn; intuition discriminate.
Qed.

(** The one [clearInterval] of the program is that of the interval
    callback: it clears the timer whose callback it is, at a progress
    of 100 or more. *)
Lemma clears_only_own_tick (ev : Event) (s : State) (id : nat) :
  In (ClearInterval id) (snd (handle ev s)) ->
  exists random : Q,
    ev = Upload (UploadPage.IntervalFires id random)
    /\ (100 <= UploadPage.uploadProgress (upload s))%Q.
Proof.
  intros Hin. destruct (clears_only_from_upload ev s id Hin) as [ev' ->].
  cbn [handle] in Hin. rewrite onUpload_log in Hin.
  destruct ev' as [dropped | | | | chosen | | i | | timer random];
    try (cbn in Hin; intuition discriminate).
  - cbn [UploadPage.handle] in Hin. unfold UploadPage.startUpload, reading in Hin.
    destruct (Nat.eqb (length (UploadPage.files (upload s))) 0);
      cbn in Hin; intuition discriminate.
  - cbn [UploadPage.handle] in Hin. unfold UploadPage.tick, reading in Hin.
    destruct (Qle_bool 100 (UploadPage.uploadProgress (upload s))) eqn:Hge;
      cbn in Hin; [| contradiction].
    destruct Hin as [[= ->] | []].
    exists random. split; [reflexivity | now apply Qle_bool_iff].
Qed.

(** The handlers of the upload page leave the page flag and the user
    as they are. *)
Lemma upload_event_keeps_view (ev : UploadPage.Event) (s : State) :
  shows UploadView (fst (handle (Upload ev) s)) = shows UploadView s.
Proof. cbn [handle]. now rewrite onUpload_state. Qed.

(** X3.  The interval timers of the upload page, in every state the
    application reaches.  The mounted page has a timer of its own
    exactly while [isUploading] is set, and never more than one: the
    one that the last click on the process button started, and the
    button is offered only when there is none.  A timer is cleared by
    its own callback only, at a progress of 100 or more; the page has
    no cleanup, so a step after which the page is off the screen leaves
    the timer that the page had running set, next to those that earlier
    mounts of the page have left.  No timer is held twice. *)
Theorem one_interval_while_uploading (s : State) :
  reachable s ->
  (UploadPage.isUploading (upload s) = true <-> UploadPage.intervals (upload s) <> [])
  /\ length (UploadPage.intervals (upload s)) <= 1
  /\ (forall id : nat,
        In id (UploadPage.intervals (upload s)) ->
        S id = UploadPage.nextInterval (upload s))
  /\ (enabled s (Upload UploadPage.ClickProcess) = true ->
      UploadPage.intervals (upload s) = [])
  /\ NoDup (UploadPage.intervals (upload s) ++ UploadPage.orphans (upload s))
  /\ (forall (ev : Event) (id : nat),
        In (ClearInterval id) (snd (handle ev s)) ->
        exists random : Q,
          ev = Upload (UploadPage.IntervalFires id random)
          /\ (100 <= UploadPage.uploadProgress (upload s))%Q)
  /\ (forall (ev : Event) (s' : State),
        step s ev s' -> shows UploadView s' = false ->
        UploadPage.orphans (upload s')
        = UploadPage.intervals (upload s) ++ UploadPage.orphans (upload s)).
Proof.
  intros Hreach.
  destruct (lifetime_timer _ (app_upload_lifetime s Hreach))
    as (Htimer & _ & Hnodup).
  assert (Hpage :
    (UploadPage.isUploading (upload s) = true <-> UploadPage.intervals (upload s) <> [])
    /\ length (UploadPage.intervals (upload s)) <= 1
    /\ (forall id : nat,
          In id (UploadPage.intervals (upload s)) ->
          S id = UploadPage.nextInterval (upload s))
    /\ (enabled s (Upload UploadPage.ClickProcess) = true ->
        UploadPage.intervals (upload s) = [])).
  { destruct Htimer as [[Hidle Hnone] | (Hbusy & Hone & Hnext)].
    - rewrite Hidle, Hnone. repeat split; try discriminate; try contradiction.
      cbn. lia.
    - rewrite Hbusy, Hone. repeat split; try discriminate.
      + cbn. lia.
      + intros id [<- | []]. lia.
      + cbn [enabled UploadPage.enabled]. rewrite Hbusy, !andb_false_r. discriminate. }
  destruct Hpage as (Hiff & Hone & Hid & Hbutton).
  split; [exact Hiff |]. split; [exact Hone |]. split; [exact Hid |].
  split; [exact Hbutton |]. split; [exact Hnodup |].
  split; [intros ev id; apply clears_only_own_tick |].
  intros ev s' Hstep Hhidden. destruct Hstep as [s ev Hen].
  change (shows UploadView (fst (handle ev s)) = false) in Hhidden.
  assert (Hother : forall ev', ev <> Upload ev').
  { intros ev' ->. rewrite upload_event_keeps_view in Hhidden.
    cbn [enabled] in Hen. rewrite Hhidden in Hen. discriminate. }
  cbn [commit upload]. rewrite Hhidden. cbn [UploadPage.unmounted UploadPage.orphans].
  rewrite handle_upload. destruct ev; try reflexivity.
  now destruct (Hother ev).
Qed.

Lemma one_interval_witness :
  reachable uploading_again
  /\ UploadPage.isUploading (upload uploading_again) = true
  /\ UploadPage.intervals (upload uploading_again) = [1]
  /\ UploadPage.orphans (upload uploading_again) = [0]
  /\ length (UploadPage.intervals (upload uploading_again)) <= 1
  /\ NoDup ([1] ++ [0]).
Proof.
  assert (Hreach : reachable uploading_again).
  { apply (run_reaches two_uploads init _ reach_init). vm_compute. reflexivity. }
  destruct (one_interval_while_uploading uploading_again Hreach)
    as (Hiff & Hone & _ & _ & Hnodup & _ & _).
  split; [exact Hreach |]. split; [apply Hiff; discriminate |].
  split; [reflexivity |]. split; [reflexivity |].
  split; [exact Hone | exact Hnodup].
Defined.

(** X6.  In every state the application reaches, whatever was clicked on
    whichever page and however often the upload page was left, the
    upload page holds at most 100 files and its progress lies in
    [0, 115). *)
Theorem upload_page_invariants_in_app (s : State) :
  reachable s ->
  length (UploadPage.files (upload s)) <= 100
  /\ (0 <= UploadPage.uploadProgress (upload s))%Q
  /\ (UploadPage.uploadProgress (upload s) < 115)%Q.
Proof.
  intros Hreach.
  split; [exact (reachable_files_capped s Hreach) |].
  destruct (lifetime_progress_range _ (app_upload_lifetime s Hreach))
    as (Hlo & Hhi & _ & _).
  split; [exact Hlo | exact Hhi].
Qed.

Lemma upload_page_invariants_witness :
  reachable on_upload_page
  /\ length (UploadPage.files (upload on_upload_page)) <= 100
  /\ (UploadPage.uploadProgress (upload on_upload_page) < 115)%Q.
Proof.
  assert (Hreach : reachable on_upload_page).
  { apply (run_reaches selecting init _ reach_init). vm_compute. reflexivity. }
  destruct (upload_page_invariants_in_app on_upload_page Hreach)
    as (Hcap & _ & Hhi).
  split; [exact Hreach |]. split; [exact Hcap | exact Hhi].
Defined.

(** X7.  In every state the application reaches, [currentPage] is one of
    the three strings landing, dashboard and upload, and the mode of
    the modal is login or magic-link: the renderings by cases on these
    strings leave no state out. *)
Theorem page_and_mode_flags (s : State) :
  reachable s ->
  (currentPage s = "landing" \/ currentPage s = "dashboard" \/ currentPage s = "upload")
  /\ (mode (modal s) = "login" \/ mode (modal s) = "magic-link").
Proof.
  induction 1 as [| s ev s' Hreach [IHpage IHmode] Hstep].
  - split; now left.
  - destruct Hstep as [s ev Hen]. cbn [commit currentPage modal].
    rewrite handle_currentPage, handle_modal. split.
    + destruct ev; auto.
      destruct (has_user s && String.eqb (currentPage s) "landing"); auto.
    + destruct ev; cbn [mode]; auto.
      destruct (nth_error (magicLinks s) n); cbn [mode]; auto.
Qed.

Lemma page_and_mode_flags_witness :
  reachable on_upload_page
  /\ currentPage on_upload_page = "upload"
  /\ mode (modal on_upload_page) = "magic-link".
Proof.
  assert (Hreach : reachable on_upload_page).
  { apply (run_reaches selecting init _ reach_init). vm_compute. reflexivity. }
  destruct (page_and_mode_flags on_upload_page Hreach) as [Hpage Hmode].
  split; [exact Hreach |]. split.
  - destruct Hpage as [Hpage | [Hpage | Hpage]]; try discriminate Hpage. exact Hpage.
  - destruct Hmode as [Hmode | Hmode]; try discriminate Hmode. exact Hmode.
Defined.

Lemma handler_never_returns_to_landing (ev : Event) (s : State) :
  currentPage s <> "landing" ->
  currentPage (commit (fst (handle ev s))) <> "landing".
Proof.
  intros Hleft. cbn [commit currentPage]. rewrite handle_currentPage.
  destruct ev; try exact Hleft; try discriminate.
  destruct (has_user s && String.eqb (currentPage s) "landing");
    [discriminate | exact Hleft].
Qed.

(** X8.  No handler sets [currentPage] back to landing.  Once the flag has
    left that value, whatever events follow, also a logout, the landing
    page is not rendered again and its two sign-in buttons are not
    offered again. *)
Theorem landing_page_never_returns (evs : list Event) (s s' : State) :
  run evs s = Some s' ->
  currentPage s <> "landing" ->
  currentPage s' <> "landing"
  /\ ~ In LandingView (pages (render s'))
  /\ enabled s' ClickSignIn = false
  /\ enabled s' ClickStartFreeTrial = false.
Proof.
  intros Hrun Hleft.
  assert (Hstill : currentPage s' <> "landing").
  { revert s Hrun Hleft.
    induction evs as [| ev rest IH]; intros s Hrun Hleft; cbn [run] in Hrun.
    - now injection Hrun as <-.
    - destruct (enabled s ev); [| discriminate].
      apply (IH _ Hrun). now apply handler_never_returns_to_landing. }
  apply String.eqb_neq in Hstill as Hneq.
  split; [exact Hstill |].
  cbn [enabled render pages]. unfold shows, render_pages. rewrite Hneq. cbn [andb app].
  split; [| split].
  - destruct (String.eqb (currentPage s') "upload" && has_user s');
      destruct (String.eqb (currentPage s') "dashboard" && has_user s');
      cbn; intuition discriminate.
  - destruct (String.eqb (currentPage s') "upload" && has_user s');
      destruct (String.eqb (currentPage s') "dashboard" && has_user s'); reflexivity.
  - destruct (String.eqb (currentPage s') "upload" && has_user s');
      destruct (String.eqb (currentPage s') "dashboard" && has_user s'); reflexivity.
Qed.

Lemma landing_page_never_returns_witness :
  run [ClickLogout; EffectRuns] back_on_dashboard = Some logged_out
  /\ currentPage back_on_dashboard <> "landing"
  /\ AuthProvider.user (auth logged_out) = None
  /\ ~ In LandingView (pages (render logged_out)).
Proof.
  assert (Hrun : run [ClickLogout; EffectRuns] back_on_dashboard = Some logged_out).
  { vm_compute. reflexivity. }
  assert (Hleft : currentPage back_on_dashboard <> "landing") by discriminate.
  destruct (landing_page_never_returns _ _ _ Hrun Hleft) as (_ & Hhidden & _).
  split; [exact Hrun |]. split; [exact Hleft |].
  split; [reflexivity | exact Hhidden].
Defined.

End AppInvariants.

(** ** The application: after a logout *)

Section Logout.
Import App Examples MoreExamples.

(** With no user, a page flag other than landing, the modal closed
    and no callback pending, the only event left is the effect, and it
    changes nothing. *)
Lemma quiet_state_is_stuck (q : State) (ev : Event) :
  has_user q = false ->
  String.eqb (currentPage q) "landing" = false ->
  showAuthModal q = false ->
  magicLinks q = [] ->
  AuthProvider.timeouts (auth q) = [] ->
  pendingLogins q = 0 ->
  enabled q ev = true ->
  ev = EffectRuns /\ fst (handle ev q) = q.
Proof.
  intros Huser Hpage Hclosed Hlinks Htimeouts Hpending Hen.
  destruct ev; cbn [enabled] in Hen;
    unfold shows, render_pages, render, Navigation, AuthModal, has_user in *;
    cbn [navigation authModal] in Hen;
    rewrite ?Hpage, ?Hclosed, ?Hlinks, ?Htimeouts, ?Hpending in Hen;
    try (destruct (AuthProvider.user (auth q)) eqn:Hnone; [discriminate Huser |]);
    rewrite ?andb_false_r in Hen; cbn in Hen; try discriminate Hen.
  split; [reflexivity |].
  cbn [handle]. unfold useEffect, has_user. now rewrite Hnone.
Qed.

(** X9.  Logging out away from the landing page, with the modal closed and
    no callback pending, leaves a blank screen: no navigation bar, no
    page, no modal.  From there the application accepts no event but
    the run of the effect, which changes nothing, so there is no way
    back to a sign-in. *)
Theorem logout_leaves_blank_screen (s : State) :
  currentPage s <> "landing" ->
  showAuthModal s = false ->
  magicLinks s = [] ->
  AuthProvider.timeouts (auth s) = [] ->
  pendingLogins s = 0 ->
  render (commit (fst (handle ClickLogout s))) = mkScreen None [] None
  /\ (forall ev : Event,
        enabled (commit (fst (handle ClickLogout s))) ev = true ->
        ev = EffectRuns
        /\ commit (fst (handle ev (commit (fst (handle ClickLogout s)))))
           = commit (fst (handle ClickLogout s))).
Proof.
  intros Hpage Hclosed Hlinks Htimeouts Hpending.
  apply String.eqb_neq in Hpage.
  assert (Hout : commit (fst (handle ClickLogout s))
                 = mkState (AuthProvider.mkState None (AuthProvider.loading (auth s))
                                                 (AuthProvider.timeouts (auth s)))
                           (currentPage s) (showAuthModal s) (modal s) (magicLinks s)
                           (pendingLogins s) (UploadPage.unmounted (upload s))
                           Dashboard.init).
  { unfold commit, shows, render_pages, has_user. cbn.
    now rewrite Hpage, !andb_false_r. }
  rewrite Hout. split.
  - unfold render, Navigation, render_pages, AuthModal, has_user. cbn.
    now rewrite Hpage, Hclosed, !andb_false_r.
  - intros ev Hen.
    match type of Hen with
    | enabled ?q _ = _ =>
        assert (Hstuck : ev = EffectRuns /\ fst (handle ev q) = q)
          by (apply quiet_state_is_stuck; try assumption; reflexivity)
    end.
    destruct Hstuck as [-> Hsame].
    split; [reflexivity |]. rewrite Hsame.
    unfold commit, shows, render_pages, has_user. cbn.
    now rewrite Hpage, !andb_false_r.
Qed.

Lemma logout_leaves_blank_screen_witness :
  reachable back_on_dashboard
  /\ currentPage back_on_dashboard <> "landing"
  /\ commit (fst (handle ClickLogout back_on_dashboard)) = logged_out
  /\ render logged_out = mkScreen None [] None.
Proof.
  assert (Hreach : reachable back_on_dashboard).
  { apply (run_reaches back_and_forth init _ reach_init). vm_compute. reflexivity. }
  assert (Hpage : currentPage back_on_dashboard <> "landing") by discriminate.
  destruct (logout_leaves_blank_screen back_on_dashboard Hpage eq_refl eq_refl eq_refl
                                       eq_refl) as [Hblank _].
  split; [exact Hreach |]. split; [exact Hpage |].
  split; [vm_compute; reflexivity | exact Hblank].
Defined.

End Logout.

(** ** The application: signing in, end to end *)

Section SignInFlows.
Import App Examples MoreExamples.

Lemma commit_auth (x : State) : auth (commit x) = auth x.
Proof. reflexivity. Qed.

Lemma commit_currentPage (x : State) : currentPage (commit x) = currentPage x.
Proof. reflexivity. Qed.

Lemma commit_showAuthModal (x : State) : showAuthModal (commit x) = showAuthModal x.
Proof. reflexivity. Qed.

Lemma commit_modal (x : State) : modal (commit x) = modal x.
Proof. reflexivity. Qed.

Lemma commit_magicLinks (x : State) : magicLinks (commit x) = magicLinks x.
Proof. reflexivity. Qed.

Lemma commit_pendingLogins (x : State) : pendingLogins (commit x) = pendingLogins x.
Proof. reflexivity. Qed.

Lemma run_step (ev : Event) (rest : list Event) (s s' : State) :
  enabled s ev = true ->
  run rest (commit (fst (handle ev s))) = Some s' ->
  run (ev :: rest) s = Some s'.
Proof. intros Hen Hrest. cbn [run]. now rewrite Hen. Qed.

(** What the modal shows, read off its cells. *)
Lemma modal_shows_form (s : State) :
  showAuthModal s = true -> mode (modal s) <> "login" ->
  authModal (render s)
  = Some (MagicLinkForm (email (modal s)) (isSubmitting (modal s))).
Proof.
  intros Hopen Hmode. apply String.eqb_neq in Hmode.
  cbn [render authModal]. unfold AuthModal. now rewrite Hopen, Hmode.
Qed.

Lemma modal_shows_options (s : State) :
  showAuthModal s = true -> mode (modal s) = "login" ->
  authModal (render s) = Some LoginOptions.
Proof.
  intros Hopen Hmode. cbn [render authModal]. unfold AuthModal.
  now rewrite Hopen, Hmode.
Qed.

(** [login] followed by the firing of the timeout it set. *)
Lemma login_then_timeout (method : string) (data data_email : JsVal)
      (a : AuthProvider.State) (now : Z) :
  get_prop data "email" = Some data_email ->
  fst (AuthProvider.timeoutFires (length (AuthProvider.timeouts a)) now
         (fst (AuthProvider.login method data a)))
  = AuthProvider.mkState
      (Some (AuthProvider.mkUser 1 (or_else data_email (JStr "user@example.com"))
                                 "John Doe" "trial" 50
                                 (new_Date (now + 1209600000))))
      false (AuthProvider.timeouts a).
Proof.
  intros Hget. unfold AuthProvider.timeoutFires.
  cbn [AuthProvider.login andThen AuthProvider.setLoading AuthProvider.setTimeout
       update fst AuthProvider.timeouts].
  rewrite nth_error_last.
  cbn [AuthProvider.user AuthProvider.loading AuthProvider.timeouts].
  rewrite remove_nth_last.
  unfold AuthProvider.loginCallback. rewrite Hget. reflexivity.
Qed.

Ltac project :=
  repeat (rewrite ?commit_auth, ?commit_currentPage, ?commit_showAuthModal,
            ?commit_modal, ?commit_magicLinks, ?commit_pendingLogins,
            ?handle_auth, ?handle_currentPage, ?handle_showAuthModal,
            ?handle_modal, ?handle_magicLinks, ?handle_pendingLogins;
          cbn [mode email isSubmitting]).

(** X11.  The magic-link form signs in the address that was in the field
    when the form was submitted, whatever is typed afterwards: once
    both timeouts have fired, the user record holds that address (the
    form only submits a non-empty one, so never the default), the modal
    is closed and the submit button is enabled again. *)
Theorem magic_link_signs_in_submitted_address (s : State) (typed_later : string)
        (now : Z) :
  showAuthModal s = true ->
  mode (modal s) <> "login" ->
  email (modal s) <> EmptyString ->
  isSubmitting (modal s) = false ->
  (Z.abs now <= max_time_value)%Z ->
  exists s' : State,
    run [ SubmitMagicLink;
          ChangeEmail typed_later;
          MagicLinkTimeout (length (magicLinks s));
          LoginTimeout (length (AuthProvider.timeouts (auth s))) now ] s
    = Some s'
    /\ auth s'
       = AuthProvider.mkState
           (Some (AuthProvider.mkUser 1 (JStr (email (modal s))) "John Doe" "trial" 50
                                      (new_Date (now + 1209600000))))
           false (AuthProvider.timeouts (auth s))
    /\ showAuthModal s' = false
    /\ modal s' = mkModal (mode (modal s)) typed_later false
    /\ magicLinks s' = magicLinks s.
Proof.
  intros Hopen Hmode Hemail Hidle Hnow.
  assert (Hemail' := Hemail). apply String.eqb_neq in Hemail'.
  eexists. split.
  { apply run_step.
    { cbn [enabled]. rewrite (modal_shows_form s Hopen Hmode), Hemail', Hidle.
      reflexivity. }
    apply run_step.
    { cbn [enabled]. rewrite modal_shows_form; [reflexivity | |]; project; assumption. }
    apply run_step.
    { cbn [enabled]. project. rewrite length_app. cbn. apply Nat.ltb_lt. lia. }
    apply run_step.
    { cbn [enabled]. project. rewrite nth_error_last.
      cbn [AuthProvider.login andThen AuthProvider.setLoading AuthProvider.setTimeout
           update fst AuthProvider.timeouts].
      rewrite length_app. cbn.
      apply andb_true_intro. split; [apply Nat.ltb_lt; lia | now apply Z.leb_le]. }
    reflexivity. }
  project. rewrite nth_error_last. rewrite remove_nth_last.
  rewrite (login_then_timeout "magic-link" _ (JStr (email (modal s)))) by reflexivity.
  unfold or_else. cbn [truthy]. rewrite Hemail'. now cbn.
Qed.

Lemma magic_link_witness :
  showAuthModal form_filled = true
  /\ mode (modal form_filled) <> "login"
  /\ email (modal form_filled) <> EmptyString
  /\ isSubmitting (modal form_filled) = false
  /\ (Z.abs a_clock_reading <= max_time_value)%Z
  /\ exists s' : State,
       run [ SubmitMagicLink; ChangeEmail "eve@example.com";
             MagicLinkTimeout 0; LoginTimeout 0 a_clock_reading ] form_filled
       = Some s'
       /\ option_map AuthProvider.email (AuthProvider.user (auth s'))
          = Some (JStr "ada@example.com").
Proof.
  assert (Hmode : mode (modal form_filled) <> "login") by discriminate.
  assert (Hemail : email (modal form_filled) <> EmptyString) by discriminate.
  assert (Hnow : (Z.abs a_clock_reading <= max_time_value)%Z)
    by (vm_compute; discriminate).
  destruct (magic_link_signs_in_submitted_address
              form_filled "eve@example.com" a_clock_reading
              eq_refl Hmode Hemail eq_refl Hnow) as (s' & Hrun & Hauth & _).
  repeat (split; [assumption || reflexivity |]).
  exists s'. split; [exact Hrun |]. now rewrite Hauth.
Defined.

(** X12.  A Google sign-in that succeeds, end to end: from the landing page
    with the modal on its login options, the handler sends its request;
    an ok response with a JSON body other than null makes it call
    [login] and close the modal; when the login timeout has fired and
    the effect has run, the dashboard is the page rendered, under a
    navigation bar that shows 50 credits. *)
Theorem google_sign_in_reaches_dashboard (s : State) (credential : string)
        (data : JsVal) (now : Z) :
  AuthProvider.user (auth s) = None ->
  currentPage s = "landing" ->
  showAuthModal s = true ->
  mode (modal s) = "login" ->
  data <> JNull -> data <> JUndefined ->
  (Z.abs now <= max_time_value)%Z ->
  exists s' : State,
    run [ GoogleSuccess credential;
          GoogleFetchSettled (FetchResponse true (Some data));
          LoginTimeout (length (AuthProvider.timeouts (auth s))) now;
          EffectRuns ] s
    = Some s'
    /\ pages (render s') = [DashboardView]
    /\ authModal (render s') = None
    /\ (exists bar : NavBar,
          navigation (render s') = Some bar /\ creditsRemaining bar = 50%Z)
    /\ pendingLogins s' = pendingLogins s.
Proof.
  intros Hnone Hpage Hopen Hmode Hnull Hundef Hnow.
  destruct (get_prop_defined data "email" Hnull Hundef) as [data_email Hget].
  eexists. split.
  { apply run_step.
    { cbn [enabled]. now rewrite (modal_shows_options s Hopen Hmode). }
    apply run_step.
    { cbn [enabled]. project. reflexivity. }
    apply run_step.
    { cbn [enabled]. project.
      cbn [AuthProvider.login andThen AuthProvider.setLoading AuthProvider.setTimeout
           update fst AuthProvider.timeouts].
      rewrite length_app. cbn.
      apply andb_true_intro. split; [apply Nat.ltb_lt; lia | now apply Z.leb_le]. }
    apply run_step; [reflexivity |].
    reflexivity. }
  match goal with
  | |- pages (render ?final) = _ /\ _ => remember final as f eqn:Hf
  end.
  assert (Ha : auth f
               = AuthProvider.mkState
                   (Some (AuthProvider.mkUser
                            1 (or_else data_email (JStr "user@example.com"))
                            "John Doe" "trial" 50 (new_Date (now + 1209600000))))
                   false (AuthProvider.timeouts (auth s))).
  { rewrite Hf. project. now apply login_then_timeout. }
  assert (Hp : currentPage f = "dashboard").
  { rewrite Hf. project. unfold has_user. project.
    rewrite (login_then_timeout "google" data data_email) by exact Hget.
    now rewrite Hpage. }
  assert (Hm : showAuthModal f = false) by (rewrite Hf; project; reflexivity).
  assert (Hl : pendingLogins f = pendingLogins s) by (rewrite Hf; project; reflexivity).
  clear Hf. cbn [render pages authModal navigation].
  unfold render_pages, AuthModal, Navigation, has_user.
  rewrite Ha, Hp, Hm. cbn. repeat split; [| exact Hl].
  eexists. split; reflexivity.
Qed.

Lemma google_sign_in_witness :
  AuthProvider.user (auth modal_open) = None
  /\ currentPage modal_open = "landing"
  /\ showAuthModal modal_open = true
  /\ mode (modal modal_open) = "login"
  /\ ada <> JNull /\ ada <> JUndefined
  /\ (Z.abs a_clock_reading <= max_time_value)%Z
  /\ exists s' : State,
       run [ GoogleSuccess "header.payload.signature";
             GoogleFetchSettled (FetchResponse true (Some ada));
             LoginTimeout 0 a_clock_reading;
             EffectRuns ] modal_open
       = Some s'
       /\ pages (render s') = [DashboardView].
Proof.
  assert (Hnull : ada <> JNull) by discriminate.
  assert (Hundef : ada <> JUndefined) by discriminate.
  assert (Hnow : (Z.abs a_clock_reading <= max_time_value)%Z)
    by (vm_compute; discriminate).
  destruct (google_sign_in_reaches_dashboard
              modal_open "header.payload.signature" ada a_clock_reading
              eq_refl eq_refl eq_refl eq_refl Hnull Hundef Hnow)
    as (s' & Hrun & Hpages & _).
  repeat (split; [assumption || reflexivity |]).
  exists s'. split; [exact Hrun | exact Hpages].
Defined.

End SignInFlows.

(** ** The application: pending sign-ins and the user record *)

Section PendingAndUser.
Import App Examples MoreExamples.

Lemma enabled_submit (s : State) :
  enabled s SubmitMagicLink = true -> isSubmitting (modal s) = false.
Proof.
  cbn [enabled render authModal]. unfold AuthModal.
  destruct (negb (showAuthModal s)); [discriminate |].
  destruct (String.eqb (mode (modal s)) "login"); [discriminate |].
  intros Hen. apply andb_prop in Hen as [_ Hidle].
  now apply negb_true_iff in Hidle.
Qed.

Lemma reachable_magic_links (s : State) :
  reachable s ->
  (isSubmitting (modal s) = false /\ magicLinks s = [])
  \/ (isSubmitting (modal s) = true /\ exists address, magicLinks s = [address]).
Proof.
  induction 1 as [| s ev s' Hreach IH Hstep].
  - left. now split.
  - destruct Hstep as [s ev Hen]. cbn [commit modal magicLinks].
    rewrite handle_modal, handle_magicLinks.
    destruct ev; cbn [isSubmitting]; try exact IH.
    + (* the form is submitted *)
      apply enabled_submit in Hen.
      destruct IH as [[_ Hnone] | [Hbusy _]]; [| congruence].
      right. split; [reflexivity |]. rewrite Hnone. now eexists.
    + (* its timeout fires *)
      cbn [enabled] in Hen. apply Nat.ltb_lt in Hen.
      destruct IH as [[_ Hnone] | [_ [address Hone]]].
      * rewrite Hnone in Hen. cbn in Hen. lia.
      * rewrite Hone in *. cbn in Hen.
        destruct n as [| n]; [| lia]. cbn. left. now split.
Qed.

(** X13.  In every state the application reaches, a magic-link timeout is
    pending exactly while [isSubmitting] is set, and never more than
    one; while it is pending the form does not submit again. *)
Theorem one_magic_link_at_a_time (s : State) :
  reachable s ->
  (isSubmitting (modal s) = true <-> magicLinks s <> [])
  /\ length (magicLinks s) <= 1
  /\ (magicLinks s <> [] -> enabled s SubmitMagicLink = false).
Proof.
  intros Hreach.
  destruct (reachable_magic_links s Hreach)
    as [[Hidle Hnone] | [Hbusy [address Hone]]].
  - rewrite Hidle, Hnone. repeat split; try discriminate; try contradiction.
    cbn. lia.
  - rewrite Hbusy, Hone. repeat split; try discriminate.
    + cbn. lia.
    + intros _. destruct (enabled s SubmitMagicLink) eqn:Hen; [| reflexivity].
      apply enabled_submit in Hen. congruence.
Qed.

Lemma one_magic_link_witness :
  reachable (commit (fst (handle SubmitMagicLink form_filled)))
  /\ magicLinks (commit (fst (handle SubmitMagicLink form_filled)))
     = ["ada@example.com"]
  /\ enabled (commit (fst (handle SubmitMagicLink form_filled))) SubmitMagicLink
     = false.
Proof.
  assert (Hreach : reachable (commit (fst (handle SubmitMagicLink form_filled)))).
  { apply (run_reaches [ClickSignIn; ClickContinueWithEmail;
                        ChangeEmail "ada@example.com"; SubmitMagicLink]
                       init _ reach_init).
    vm_compute. reflexivity. }
  destruct (one_magic_link_at_a_time _ Hreach) as (_ & _ & Hblocked).
  split; [exact Hreach |]. split; [reflexivity |].
  apply Hblocked. discriminate.
Defined.

Lemma or_else_truthy (a b : JsVal) : truthy b = true -> truthy (or_else a b) = true.
Proof. intros Hb. unfold or_else. now destruct (truthy a) eqn:Ha. Qed.

(** X14.  In every state the application reaches, a user record, when there
    is one, has id 1, the name John Doe, the plan trial, 50 credits and
    a truthy email; so the navigation bar always reads 50 credits
    remaining: nothing in the program spends or adds credits. *)
Theorem user_record_is_the_mock (s : State) (u : AuthProvider.User) :
  reachable s ->
  AuthProvider.user (auth s) = Some u ->
  AuthProvider.id u = 1%Z
  /\ AuthProvider.name u = "John Doe"
  /\ AuthProvider.plan u = "trial"
  /\ AuthProvider.credits u = 50%Z
  /\ truthy (AuthProvider.email u) = true
  /\ option_map creditsRemaining (navigation (render s)) = Some 50%Z.
Proof.
  intros Hreach Huser.
  assert (Hmock : AuthProvider.id u = 1%Z
                  /\ AuthProvider.name u = "John Doe"
                  /\ AuthProvider.plan u = "trial"
                  /\ AuthProvider.credits u = 50%Z
                  /\ truthy (AuthProvider.email u) = true).
  { revert u Huser.
    induction Hreach as [| s ev s' Hreach IH Hstep]; intros u Huser.
    - discriminate Huser.
    - destruct Hstep as [s ev Hen]. cbn [commit auth] in Huser.
      rewrite handle_auth in Huser.
      destruct ev; try (apply IH; exact Huser).
      + destruct outcome as [| ok [data |]]; try (apply IH; exact Huser);
          destruct ok; apply IH; exact Huser.
      + destruct (nth_error (magicLinks s) n); apply IH; exact Huser.
      + unfold AuthProvider.timeoutFires in Huser.
        destruct (nth_error (AuthProvider.timeouts (auth s)) n) as [data |];
          [| apply IH; exact Huser].
        unfold AuthProvider.loginCallback in Huser.
        destruct (get_prop data "email") as [data_email |]; cbn in Huser.
        * injection Huser as <-. cbn. repeat split. now apply or_else_truthy.
        * apply IH. exact Huser.
      + discriminate Huser. }
  destruct Hmock as (Hid & Hname & Hplan & Hcredits & Hemail).
  repeat (split; [assumption |]).
  cbn [render navigation]. unfold Navigation. rewrite Huser. cbn.
  now rewrite Hcredits.
Qed.

Lemma user_record_witness :
  reachable second_login_pending
  /\ option_map creditsRemaining (navigation (render second_login_pending))
     = Some 50%Z.
Proof.
  assert (Hreach : reachable second_login_pending).
  { apply (run_reaches two_logins init _ reach_init). vm_compute. reflexivity. }
  split; [exact Hreach |].
  exact (proj2 (proj2 (proj2 (proj2 (proj2
           (user_record_is_the_mock second_login_pending _ Hreach eq_refl)))))).
Defined.

(** X15.  [login] keeps nothing of its arguments but [data.email]: the
    method is ignored, and two data values with the same email lead to
    the same user record when the timeout fires.  A token or profile in
    the server's answer to the Google sign-in therefore never reaches
    the state. *)
Theorem login_keeps_only_the_email (method1 method2 : string) (data1 data2 : JsVal)
        (a : AuthProvider.State) (now : Z) :
  get_prop data1 "email" = get_prop data2 "email" ->
  AuthProvider.login method1 data1 a = AuthProvider.login method2 data1 a
  /\ AuthProvider.loginCallback data1 now a = AuthProvider.loginCallback data2 now a
  /\ fst (AuthProvider.timeoutFires (length (AuthProvider.timeouts a)) now
            (fst (AuthProvider.login method1 data1 a)))
     = fst (AuthProvider.timeoutFires (length (AuthProvider.timeouts a)) now
              (fst (AuthProvider.login method2 data2 a))).
Proof.
  intros Hsame. split; [reflexivity |].
  assert (Hcallback : forall a', AuthProvider.loginCallback data1 now a'
                                 = AuthProvider.loginCallback data2 now a').
  { intros a'. unfold AuthProvider.loginCallback. now rewrite Hsame. }
  split; [apply Hcallback |].
  unfold AuthProvider.timeoutFires.
  cbn [AuthProvider.login andThen AuthProvider.setLoading AuthProvider.setTimeout
       update fst AuthProvider.timeouts].
  rewrite !nth_error_last.
  cbn [AuthProvider.user AuthProvider.loading AuthProvider.timeouts].
  rewrite !remove_nth_last. now rewrite Hcallback.
Qed.

Lemma login_keeps_only_the_email_witness :
  get_prop (JObj [("token", JStr "abc"); ("email", JStr "ada@example.com")]) "email"
  = get_prop ada "email"
  /\ fst (AuthProvider.timeoutFires 0 a_clock_reading
            (fst (AuthProvider.login "google"
                    (JObj [("token", JStr "abc"); ("email", JStr "ada@example.com")])
                    AuthProvider.init)))
     = fst (AuthProvider.timeoutFires 0 a_clock_reading
              (fst (AuthProvider.login "magic-link" ada AuthProvider.init))).
Proof.
  split; [reflexivity |].
  exact (proj2 (proj2 (login_keeps_only_the_email
                         "google" "magic-link"
                         (JObj [("token", JStr "abc"); ("email", JStr "ada@example.com")])
                         ada AuthProvider.init a_clock_reading eq_refl))).
Defined.

(** X16.  [logout] clears the user record and nothing else: a login timeout
    that is still pending stays pending, and when it fires the user is
    signed in again without any action of theirs. *)
Theorem logout_keeps_pending_logins (s : State) (n : nat) (data : JsVal) (now : Z) :
  nth_error (AuthProvider.timeouts (auth s)) n = Some data ->
  data <> JNull -> data <> JUndefined ->
  (Z.abs now <= max_time_value)%Z ->
  AuthProvider.user (auth (commit (fst (handle ClickLogout s)))) = None
  /\ AuthProvider.timeouts (auth (commit (fst (handle ClickLogout s))))
     = AuthProvider.timeouts (auth s)
  /\ enabled (commit (fst (handle ClickLogout s))) (LoginTimeout n now) = true
  /\ AuthProvider.user
       (auth (commit (fst (handle (LoginTimeout n now)
                                  (commit (fst (handle ClickLogout s)))))))
     <> None.
Proof.
  intros Hnth Hnull Hundef Hnow.
  destruct (get_prop_defined data "email" Hnull Hundef) as [data_email Hget].
  split; [reflexivity |]. split; [reflexivity |]. split.
  - cbn [enabled]. rewrite commit_auth, handle_auth. cbn.
    apply andb_true_intro. split; [| now apply Z.leb_le].
    apply Nat.ltb_lt. apply nth_error_Some. congruence.
  - rewrite commit_auth, handle_auth, commit_auth, handle_auth.
    unfold AuthProvider.timeoutFires. cbn. rewrite Hnth.
    unfold AuthProvider.loginCallback. rewrite Hget. discriminate.
Qed.

Lemma logout_keeps_pending_logins_witness :
  reachable second_login_pending
  /\ nth_error (AuthProvider.timeouts (auth second_login_pending)) 0 = Some ada
  /\ option_map
       (fun s' => option_map AuthProvider.email (AuthProvider.user (auth s')))
       (run [ClickLogout; LoginTimeout 0 a_clock_reading] second_login_pending)
     = Some (Some (JStr "ada@example.com")).
Proof.
  assert (Hreach : reachable second_login_pending).
  { apply (run_reaches two_logins init _ reach_init). vm_compute. reflexivity. }
  assert (Hnull : ada <> JNull) by discriminate.
  assert (Hundef : ada <> JUndefined) by discriminate.
  assert (Hnow : (Z.abs a_clock_reading <= max_time_value)%Z)
    by (vm_compute; discriminate).
  destruct (logout_keeps_pending_logins second_login_pending 0 ada a_clock_reading
                                        eq_refl Hnull Hundef Hnow)
    as (_ & _ & Hen & _).
  split; [exact Hreach |]. split; [reflexivity |].
  cbn [run]. rewrite Hen. vm_compute. reflexivity.
Defined.

End PendingAndUser.
